(** * LED device activity trigger (drivers/leds/trigger/ledtrig-device.c)

    A shallow embedding of the device trigger registry: the intrusive
    doubly linked list [devs_list] of [ledtrig_dev_data] objects, the
    reader/writer semaphore [devs_list_lock] that guards it, the calls the
    driver makes into the LED trigger core, and the debugfs plumbing that
    turns "major:minor" text into a [dev_t].

    The list is modelled at the level of its [next]/[prev] pointers, so that
    what the loops of the driver do while they unlink nodes is visible.  The
    abstract content of the list (a sequence of entries) is tied to the
    pointer structure by the predicate [is_devs_list].

    The source holds the driver twice, with and without the debugfs files;
    the two agree on the registry, except that only the first logs a
    warning when a device is added twice.  The model follows the first. *)

From Stdlib Require Import Ascii.
From stdpp Require Import base gmap list strings pretty.

Set Warnings "-clear-no-such-hyp".

Open Scope Z_scope.

(** ** Device numbers

    The macros of include/linux/kdev_t.h are not in the driver's file; they
    are the kernel's: a [dev_t] is 32 bits wide, the minor number in its
    low 20 bits and the major number above it. *)

Definition dev_t := Z.

Definition MINORBITS : Z := 20.
Definition MINORMASK : Z := Z.shiftl 1 MINORBITS - 1.

(** [unsigned int] arithmetic wraps at 32 bits. *)
Definition u32 (z : Z) : Z := z mod 2 ^ 32.

Definition MAJOR (dev : dev_t) : Z := Z.shiftr dev MINORBITS.
Definition MINOR (dev : dev_t) : Z := Z.land dev MINORMASK.
Definition MKDEV (ma mi : Z) : dev_t := u32 (Z.lor (Z.shiftl ma MINORBITS) mi).

(** ** Memory *)

(** Addresses of slab objects and of LED triggers; [NULL] is address 0. *)
Definition ptr := N.
Definition NULL : ptr := 0%N.

(** A [struct list_head *] points at the list head [devs_list], at the
    [node] member of the object at some address ([list_entry] maps it back
    to that address), or nowhere: [NULL] and the two poison values of
    include/linux/poison.h. *)
Inductive list_ptr : Type :=
| Head
| Node (a : ptr)
| Invalid (v : Z).

Definition NULL_node : list_ptr := Invalid 0.
Definition LIST_POISON1 : list_ptr := Invalid 256.
Definition LIST_POISON2 : list_ptr := Invalid 512.

Global Instance list_ptr_eq_dec : EqDecision list_ptr.
Proof. solve_decision. Defined.

Record list_head : Type := ListHead { next : list_ptr; prev : list_ptr }.

Definition BLINK_DELAY : Z := 30.
Definition blink_delay : Z := BLINK_DELAY.

Definition MAX_NAME_LEN : nat := 20.

Record ledtrig_dev_data : Type := DevData {
  name : string;
  dev : dev_t;
  trig : ptr;
  node : list_head
}.

(** ** The reader/writer semaphore *)

Record rw_semaphore : Type := RwSem { writer : bool; readers : nat }.

(** ** Calls into the LED trigger core

    The driver only holds handles of triggers; what it asks of the LED core
    is recorded, oldest call first.  [RegisterSimple n t] is a call of
    [led_trigger_register_simple(n, &tp)] that stored [t] in [tp]; the LED
    core stores [NULL] when it could not register the trigger. *)
Inductive led_call : Type :=
| RegisterSimple (nm : string) (t : ptr)
| UnregisterSimple (t : ptr)
| BlinkOneshot (t : ptr) (delay_on delay_off : Z) (invert : Z).

Global Instance led_call_eq_dec : EqDecision led_call.
Proof. solve_decision. Defined.

(** ** Global state of the module *)

Record state : Type := State {
  devs_list_lock : rw_semaphore;
  devs_list : list_head;
  mem : gmap ptr ledtrig_dev_data;
  led_calls : list led_call;
  printk : list string
}.

Definition LIST_HEAD_INIT : list_head := ListHead Head Head.

(** The state right after the module is loaded. *)
Definition init_state : state :=
  State (RwSem false 0) LIST_HEAD_INIT ∅ [] [].

Definition set_lock (k : rw_semaphore) (s : state) : state :=
  State k (devs_list s) (mem s) (led_calls s) (printk s).
Definition set_devs_list (h : list_head) (s : state) : state :=
  State (devs_list_lock s) h (mem s) (led_calls s) (printk s).
Definition set_mem (m : gmap ptr ledtrig_dev_data) (s : state) : state :=
  State (devs_list_lock s) (devs_list s) m (led_calls s) (printk s).
Definition add_led_calls (cs : list led_call) (s : state) : state :=
  State (devs_list_lock s) (devs_list s) (mem s) (led_calls s ++ cs) (printk s).
Definition add_printk (msg : string) (s : state) : state :=
  State (devs_list_lock s) (devs_list s) (mem s) (led_calls s) (printk s ++ [msg]).

(** ** The monad of kernel code

    A call returns a value and a new state, goes to sleep on the semaphore
    (nothing in a sequential run will wake it up), or goes wrong: it
    dereferences a pointer that is not valid, or it never leaves a loop. *)
Inductive outcome (A : Type) : Type :=
| Ret (a : A) (s : state)
| Sleeps
| Oops.
Arguments Ret {A} a s.
Arguments Sleeps {A}.
Arguments Oops {A}.

Definition M (A : Type) : Type := state → outcome A.

Definition ret {A} (a : A) : M A := λ s, Ret a s.
Definition bind {A B} (m : M A) (f : A → M B) : M B := λ s,
  match m s with
  | Ret a s' => f a s'
  | Sleeps => Sleeps
  | Oops => Oops
  end.

Declare Scope kernel_scope.
Delimit Scope kernel_scope with K.
Bind Scope kernel_scope with M.
Notation "x ← y ; z" := (bind y (λ x : _, z))
  (at level 20, y at level 100, z at level 200, only parsing) : kernel_scope.
Notation "y ;; z" := (bind y (λ _, z))
  (at level 100, z at level 200, only parsing, right associativity)
  : kernel_scope.
Open Scope kernel_scope.

Definition get : M state := λ s, Ret s s.
Definition modify (f : state → state) : M unit := λ s, Ret tt (f s).
Definition oops {A} : M A := λ _, Oops.

(** ** include/linux/rwsem.h

    Not in the driver's file.  A semaphore is held by one writer or by any
    number of readers; [down_read_trylock] gives up where [down_read]
    would sleep. *)

Definition down_read_trylock : M bool := λ s,
  let k := devs_list_lock s in
  if writer k then Ret false s
  else Ret true (set_lock (RwSem false (S (readers k))) s).

Definition down_read : M unit := λ s,
  let k := devs_list_lock s in
  if writer k then Sleeps
  else Ret tt (set_lock (RwSem false (S (readers k))) s).

Definition up_read : M unit := λ s,
  let k := devs_list_lock s in
  Ret tt (set_lock (RwSem (writer k) (Nat.pred (readers k))) s).

Definition down_write : M unit := λ s,
  let k := devs_list_lock s in
  if writer k then Sleeps
  else match readers k with
       | O => Ret tt (set_lock (RwSem true 0) s)
       | S _ => Sleeps
       end.

Definition up_write : M unit := λ s,
  Ret tt (set_lock (RwSem false (readers (devs_list_lock s))) s).

(** ** Loads and stores *)

Definition load (p : ptr) : M ledtrig_dev_data := λ s,
  match mem s !! p with
  | Some d => Ret d s
  | None => Oops
  end.

Definition store (p : ptr) (d : ledtrig_dev_data) : M unit := λ s,
  match mem s !! p with
  | Some _ => Ret tt (set_mem (<[p := d]> (mem s)) s)
  | None => Oops
  end.

Definition load_head (p : list_ptr) : M list_head :=
  match p with
  | Head => λ s, Ret (devs_list s) s
  | Node a => d ← load a; ret (node d)
  | Invalid _ => oops
  end.

Definition store_head (p : list_ptr) (h : list_head) : M unit :=
  match p with
  | Head => modify (set_devs_list h)
  | Node a => d ← load a; store a (DevData (name d) (dev d) (trig d) h)
  | Invalid _ => oops
  end.

Definition set_next (p v : list_ptr) : M unit :=
  h ← load_head p; store_head p (ListHead v (prev h)).
Definition set_prev (p v : list_ptr) : M unit :=
  h ← load_head p; store_head p (ListHead (next h) v).

(** [container_of(en, struct ledtrig_dev_data, node)]; on the list head it
    would compute an address that holds no object. *)
Definition list_entry (en : list_ptr) : M ptr :=
  match en with
  | Node a => ret a
  | _ => oops
  end.

(** ** include/linux/slab.h

    What [kzalloc] returns is chosen by the allocator: [NULL] when it is out
    of memory, else the address [a] of an object that was not allocated
    before; the new object is all zeroes. *)
Definition zeroed : ledtrig_dev_data :=
  DevData "" 0 NULL (ListHead NULL_node NULL_node).

Definition kzalloc (a : ptr) : M ptr := λ s,
  if decide (a = NULL) then Ret NULL s
  else Ret a (set_mem (<[a := zeroed]> (mem s)) s).

Definition kfree (p : ptr) : M unit := λ s,
  if decide (p = NULL) then Ret tt s
  else match mem s !! p with
       | Some _ => Ret tt (set_mem (delete p (mem s)) s)
       | None => Oops
       end.

(** ** include/linux/list.h

    Not in the driver's file; these are the kernel's definitions, pointer
    store by pointer store. *)

Definition INIT_LIST_HEAD (p : list_ptr) : M unit :=
  store_head p (ListHead p p).

Definition __list_add (new prv nxt : list_ptr) : M unit :=
  set_prev nxt new;;
  set_next new nxt;;
  set_prev new prv;;
  set_next prv new.

(** [list_add] inserts the new node right after [head]. *)
Definition list_add (new head : list_ptr) : M unit :=
  h ← load_head head;
  __list_add new head (next h).

Definition __list_del (prv nxt : list_ptr) : M unit :=
  set_prev nxt prv;;
  set_next prv nxt.

Definition list_del (entry : list_ptr) : M unit :=
  h ← load_head entry;
  __list_del (prev h) (next h);;
  set_next entry LIST_POISON1;;
  set_prev entry LIST_POISON2.

(** What the body of a loop over the list asks for: go on from the cursor
    [en] (the body may have moved it), or [break]. *)
Inductive loop_ctl (A : Type) : Type :=
| Continue (en : list_ptr) (a : A)
| Break (a : A).
Arguments Continue {A} en a.
Arguments Break {A} a.

(** [for (pos = from; pos != head; pos = pos->next) body], with the local
    variables of the enclosing function in [a].  The recursion is on a
    bound for the number of rounds. *)
Fixpoint list_for_each_from {A} (fuel : nat) (head pos : list_ptr)
    (body : list_ptr → A → M (loop_ctl A)) (a : A) : M A :=
  match fuel with
  | O => oops
  | S fuel' =>
      if decide (pos = head) then ret a
      else
        c ← body pos a;
        match c with
        | Break a' => ret a'
        | Continue en a' =>
            h ← load_head en;
            list_for_each_from fuel' head (next h) body a'
        end
  end.

(** A list that has not come back to its head after as many rounds as
    there are objects in memory never will, so that is the bound. *)
Definition list_for_each {A} (head : list_ptr)
    (body : list_ptr → A → M (loop_ctl A)) (a : A) : M A :=
  s ← get;
  h ← load_head head;
  list_for_each_from (S (size (mem s))) head (next h) body a.

(** [list_for_each_entry]: the cursor is the object that contains the
    node; the body says whether it breaks. *)
Definition entry_body {A} (body : ptr → A → M (bool * A))
    (en : list_ptr) (a : A) : M (loop_ctl A) :=
  dev_trig ← list_entry en;
  r ← body dev_trig a;
  ret (if r.1 then Break r.2 else Continue en r.2).

Definition list_for_each_entry {A} (head : list_ptr)
    (body : ptr → A → M (bool * A)) (a : A) : M A :=
  list_for_each head (entry_body body) a.

(** ** The LED trigger core (include/linux/leds.h) *)

(** Modelled from the spec: the LED core (drivers/leds/led-triggers.c) is
    not under src/.  Registering a name yields a handle and may fail;
    [res] is the handle that the LED core stores for the caller, [NULL]
    when it fails. *)
Definition led_trigger_register_simple (nm : string) (res : ptr) : M ptr :=
  modify (add_led_calls [RegisterSimple nm res]);; ret res.

(** Modelled from the spec: the LED core is not under src/.  Releases
    what the LED core holds for a handle. *)
Definition led_trigger_unregister_simple (t : ptr) : M unit :=
  modify (add_led_calls [UnregisterSimple t]).

(** Modelled from the spec: the LED core is not under src/.  Asks for one
    pulse of the indicator, with an on and an off duration and an invert
    flag; it does not block. *)
Definition led_trigger_blink_oneshot (t : ptr) (delay_on delay_off invert : Z)
    : M unit :=
  modify (add_led_calls [BlinkOneshot t delay_on delay_off invert]).

(** ** The driver *)

(** ["%u"] of printf. *)
Definition fmt_u (z : Z) : string := pretty (u32 z).

(** [snprintf(buf, size, ...)] keeps [size - 1] characters. *)
Definition snprintf (size : nat) (s : string) : string :=
  String.substring 0 (Nat.pred size) s.

(** The line feed that ends the formats ["%u:%u\n"] and
    ["device %u:%u already registered\n"]. *)
Definition LF : string := String (Ascii.ascii_of_nat 10) EmptyString.

Definition ledtrig_dev_activity (dev' : dev_t) : M unit :=
  ok ← down_read_trylock;
  if negb ok then ret tt
  else
    list_for_each_entry Head
      (λ dev_trig (_ : unit),
         d ← load dev_trig;
         if decide (dev d = dev') then
           led_trigger_blink_oneshot (trig d) blink_delay blink_delay 0;;
           ret (true, tt)
         else ret (false, tt))
      tt;;
    up_read.

Definition ledtrig_dev_new (alloc : ptr) (dev' : dev_t) : M ptr :=
  dev_trig ← kzalloc alloc;
  if decide (dev_trig = NULL) then ret NULL
  else
    INIT_LIST_HEAD (Node dev_trig);;
    d ← load dev_trig;
    store dev_trig (DevData (name d) dev' (trig d) (node d));;
    d ← load dev_trig;
    store dev_trig
      (DevData
         (snprintf MAX_NAME_LEN
            ("dev-" +:+ fmt_u (MAJOR dev') +:+ ":" +:+ fmt_u (MINOR dev')))
         (dev d) (trig d) (node d));;
    ret dev_trig.

Definition ledtrig_dev_release (dev_trig : ptr) : M unit :=
  d ← load dev_trig;
  led_trigger_unregister_simple (trig d);;
  kfree dev_trig.

(** [alloc] is what [kzalloc] returns and [reg] what the LED core stores
    for the new trigger. *)
Definition ledtrig_dev_add (alloc reg : ptr) (dev' : dev_t) : M unit :=
  new_dev_trig ← ledtrig_dev_new alloc dev';
  if decide (new_dev_trig = NULL) then ret tt
  else
    down_write;;
    found ← list_for_each_entry Head
      (λ dev_trig (found : Z),
         d ← load dev_trig;
         if decide (dev d = dev') then ret (true, 1)
         else ret (false, found))
      0;
    (if decide (found = 0) then list_add (Node new_dev_trig) Head
     else ret tt);;
    up_write;;
    if decide (found = 0) then
      d ← load new_dev_trig;
      t ← led_trigger_register_simple (name d) reg;
      d ← load new_dev_trig;
      store new_dev_trig (DevData (name d) (dev d) t (node d))
    else
      modify (add_printk
        ("device " +:+ fmt_u (MAJOR dev') +:+ ":" +:+ fmt_u (MINOR dev')
         +:+ " already registered" +:+ LF));;
      kfree new_dev_trig.

Definition ledtrig_dev_del (dev' : dev_t) : M unit :=
  down_write;;
  list_for_each_entry Head
    (λ dev_trig (_ : unit),
       d ← load dev_trig;
       if decide (dev d = dev') then
         list_del (Node dev_trig);;
         ledtrig_dev_release dev_trig;;
         ret (true, tt)
       else ret (false, tt))
    tt;;
  up_write.

Definition ledtrig_dev_remove_all : M unit :=
  down_write;;
  list_for_each Head
    (λ en (_ : unit),
       h ← load_head en;
       let prv := prev h in
       dev_trig ← list_entry en;
       list_del en;;
       ledtrig_dev_release dev_trig;;
       ret (Continue prv tt))
    tt;;
  up_write.

(** The seq_file is the text printed so far. *)
Definition seq_printf (s msg : string) : string := s +:+ msg.

Definition ledtrig_dev_devices_show (s : string) : M (Z * string) :=
  down_read;;
  s' ← list_for_each_entry Head
    (λ dev_trig (s : string),
       d ← load dev_trig;
       ret (false,
             seq_printf s
               (fmt_u (MAJOR (dev d)) +:+ ":" +:+ fmt_u (MINOR (dev d))
                +:+ LF)))
    s;
  up_read;;
  ret (0, s').

(** Unloading the module; removing the debugfs directory is not part of
    the model. *)
Definition ledtrig_dev_exit : M unit := ledtrig_dev_remove_all.

(** ** The debugfs files: from text to a device number *)

Definition EINVAL : Z := 22.

Definition NUL : ascii := "000"%char.

(** include/linux/ctype.h: white space is the characters 9 to 13, the
    blank and the no-break space 160. *)
Definition isspace (c : ascii) : bool :=
  let n := nat_of_ascii c in
  ((9 <=? n)%nat && (n <=? 13)%nat) || (n =? 32)%nat || (n =? 160)%nat.

Definition isdigit (c : ascii) : bool :=
  let n := nat_of_ascii c in (48 <=? n)%nat && (n <=? 57)%nat.

Definition digit_val (c : ascii) : Z := Z.of_nat (nat_of_ascii c) - 48.

Fixpoint skip_spaces (str : list ascii) : list ascii :=
  match str with
  | c :: str' => if isspace c then skip_spaces str' else str
  | [] => []
  end.

(** [simple_strtoul(str, &next, 10)]: the value of the digits at the
    start of [str], on top of [acc], and what follows them. *)
Fixpoint simple_strtoul (str : list ascii) (acc : Z) : Z * list ascii :=
  match str with
  | c :: str' =>
      if isdigit c then simple_strtoul str' (acc * 10 + digit_val c)
      else (acc, str)
  | [] => (acc, [])
  end.

(** [sscanf] (lib/vsprintf.c) is not in the driver's file.  This is the
    part of the kernel's [vsscanf] that the format ["%u:%u"] of
    [get_dev_from_user] runs through.  A ["%u"] skips
    white space, needs a digit, reads all the digits that follow and
    stores their value as an [unsigned int]; any other character of the
    format has to be the next character of the input.  The scan stops at
    the first mismatch, and nothing is asked of what follows the last
    conversion.  The result lists the values stored, in order; [sscanf]
    returns how many there are. *)
Fixpoint vsscanf (str fmt : list ascii) : list Z :=
  match fmt with
  | [] => []
  | f :: fmt' =>
      if decide (f = "%"%char) then
        match fmt' with
        | u :: fmt'' =>
            if decide (u = "u"%char) then
              match str with
              | [] => []
              | _ :: _ =>
                  let str := skip_spaces str in
                  match str with
                  | digit :: _ =>
                      if isdigit digit then
                        let r := simple_strtoul str 0 in
                        u32 r.1 :: vsscanf r.2 fmt''
                      else []
                  | [] => []
                  end
              end
            else []
        | [] => []
        end
      else
        match str with
        | c :: str' => if decide (f = c) then vsscanf str' fmt' else []
        | [] => []
        end
  end.

Definition sscanf (buf : list ascii) (fmt : string) : list Z :=
  vsscanf buf (String.list_ascii_of_string fmt).

(** A C string ends at its first NUL. *)
Fixpoint c_str (mem : list ascii) : list ascii :=
  match mem with
  | c :: mem' => if decide (c = NUL) then [] else c :: c_str mem'
  | [] => []
  end.

(** [copy_from_user(to, from, n)]: [from] is the user memory that can be
    read at the address given; the result is the number of bytes that
    could not be copied. *)
Definition copy_from_user (from : list ascii) (n : Z) : Z :=
  if n <=? Z.of_nat (length from) then 0 else n - Z.of_nat (length from).

(** [WARN_ON(cond)] logs a warning when [cond] holds. *)
Definition WARN_ON (cond : bool) : M unit :=
  if cond then modify (add_printk "WARNING") else ret tt.

(** [buf] is the user memory at the address passed in, [stack] what the
    kernel stack holds where [temp] is placed (nothing initialises
    [temp], and the copy writes no terminator), [dev] the contents of the
    variable that the pointer [dev] points to, [None] for a [NULL]
    pointer.  The result is the return value and the variable behind
    [dev] afterwards. *)
Definition get_dev_from_user (buf : list ascii) (size : Z)
    (stack : list ascii) (dev' : option dev_t) : M (Z * option dev_t) :=
  WARN_ON (bool_decide (dev' = None));;
  if decide (dev' = None) then ret (- EINVAL, dev')
  else if decide (size > Z.of_nat MAX_NAME_LEN ∨ size = 0) then
    ret (- EINVAL, dev')
  else if decide (copy_from_user buf size ≠ 0) then ret (- EINVAL, dev')
  else
    let temp := take (Z.to_nat size) buf ++ drop (Z.to_nat size) stack in
    let r := sscanf (c_str temp) "%u:%u" in
    let major := nth 0 r 0 in
    let minor := nth 1 r 0 in
    if decide (Z.of_nat (length r) < 2) then ret (- EINVAL, dev')
    else ret (0, Some (MKDEV major minor)).

(** The three write handlers; [dev0] is what the local variable [dev]
    holds before the call.  The [pr_debug] lines print nothing unless the
    kernel is built for debugging and are left out. *)
Definition ledtrig_dev_register_write (alloc reg : ptr) (buf : list ascii)
    (size : Z) (stack : list ascii) (dev0 : dev_t) : M Z :=
  r ← get_dev_from_user buf size stack (Some dev0);
  if decide (r.1 < 0) then ret r.1
  else
    ledtrig_dev_add alloc reg (default dev0 r.2);;
    ret size.

Definition ledtrig_dev_unregister_write (buf : list ascii)
    (size : Z) (stack : list ascii) (dev0 : dev_t) : M Z :=
  r ← get_dev_from_user buf size stack (Some dev0);
  if decide (r.1 < 0) then ret r.1
  else
    ledtrig_dev_del (default dev0 r.2);;
    ret size.

Definition ledtrig_dev_trigger_write (buf : list ascii)
    (size : Z) (stack : list ascii) (dev0 : dev_t) : M Z :=
  r ← get_dev_from_user buf size stack (Some dev0);
  if decide (r.1 < 0) then ret r.1
  else
    ledtrig_dev_activity (default dev0 r.2);;
    ret size.

(** ** What the list contains

    An [entry] is an object as the registry sees it: where it lives, and
    the fields that are not pointers into the list. *)
Record entry : Type := Entry {
  e_addr : ptr;
  e_name : string;
  e_dev : dev_t;
  e_trig : ptr
}.

Global Instance entry_eq_dec : EqDecision entry.
Proof. solve_decision. Defined.

Definition hd_ptr (l : list entry) (d : list_ptr) : list_ptr :=
  match l with
  | [] => d
  | e :: _ => Node (e_addr e)
  end.

Fixpoint last_ptr (l : list entry) (d : list_ptr) : list_ptr :=
  match l with
  | [] => d
  | e :: l' => last_ptr l' (Node (e_addr e))
  end.

Definition obj (e : entry) (prv nxt : list_ptr) : ledtrig_dev_data :=
  DevData (e_name e) (e_dev e) (e_trig e) (ListHead nxt prv).

(** The objects of a chain of entries that comes from [prv] and goes on
    to [nxt]. *)
Fixpoint objs (prv : list_ptr) (l : list entry) (nxt : list_ptr)
    : gmap ptr ledtrig_dev_data :=
  match l with
  | [] => ∅
  | e :: l' =>
      <[e_addr e := obj e prv (hd_ptr l' nxt)]> (objs (Node (e_addr e)) l' nxt)
  end.

Definition head_of (l : list entry) : list_head :=
  ListHead (hd_ptr l Head) (last_ptr l Head).

Definition addrs (l : list entry) : list ptr := e_addr <$> l.
Definition devs (l : list entry) : list dev_t := e_dev <$> l.

(** [is_devs_list s l]: in state [s] the list [devs_list] links exactly the
    entries [l], first to last, and memory holds nothing else. *)
Definition is_devs_list (s : state) (l : list entry) : Prop :=
  devs_list s = head_of l ∧
  mem s = objs Head l Head ∧
  NoDup (addrs l) ∧
  NULL ∉ addrs l.

(** The state whose list holds [l]. *)
Definition mk_state (k : rw_semaphore) (l : list entry)
    (cs : list led_call) (msgs : list string) : state :=
  State k (head_of l) (objs Head l Head) cs msgs.

Definition unlocked : rw_semaphore := RwSem false 0.

(** ** Walking the list

    [linked s l]: the list of [s] links the entries [l]; memory may hold
    other objects as well (a candidate that is not linked yet). *)
Definition linked (s : state) (l : list entry) : Prop :=
  devs_list s = head_of l ∧
  objs Head l Head ⊆ mem s ∧
  NoDup (addrs l).

(** A loop whose body leaves the state alone unless it breaks visits the
    entries in list order, up to the first break. *)
Fixpoint scan {A} (body : ptr → A → M (bool * A)) (l : list entry) (a : A)
    : M A :=
  match l with
  | [] => ret a
  | e :: l' =>
      r ← body (e_addr e) a;
      if r.1 then ret r.2 else scan body l' r.2
  end.

Definition quiet {A} (body : ptr → A → M (bool * A)) : Prop :=
  ∀ p a s r s', body p a s = Ret r s' → r.1 = false → s' = s.

(** The first entry of [l] (in list order) for device [d]. *)
Definition find_dev (d : dev_t) (l : list entry) : option entry :=
  find (λ e, bool_decide (e_dev e = d)) l.

(** ** What the entry points do to the list

    The calls into the LED core that [ledtrig_dev_activity d] makes. *)
Definition fired (d : dev_t) (l : list entry) : list led_call :=
  match find_dev d l with
  | Some e => [BlinkOneshot (e_trig e) 30 30 0]
  | None => []
  end.

(** The name that [ledtrig_dev_new] gives the trigger of device [d]. *)
Definition dev_name (d : dev_t) : string :=
  snprintf MAX_NAME_LEN ("dev-" +:+ fmt_u (MAJOR d) +:+ ":" +:+ fmt_u (MINOR d)).

(** The candidate that [ledtrig_dev_new] builds at address [a]. *)
Definition candidate (a : ptr) (d : dev_t) : ledtrig_dev_data :=
  DevData (dev_name d) d NULL (ListHead (Node a) (Node a)).

(** What [ledtrig_dev_add] logs for a device that has an entry. *)
Definition warning (d : dev_t) : string :=
  "device " +:+ fmt_u (MAJOR d) +:+ ":" +:+ fmt_u (MINOR d)
  +:+ " already registered" +:+ LF.

(** [l] without its first entry for device [d]. *)
Fixpoint remove_dev (d : dev_t) (l : list entry) : list entry :=
  match l with
  | [] => []
  | e :: l' => if decide (e_dev e = d) then l' else e :: remove_dev d l'
  end.

(** The calls into the LED core that [ledtrig_dev_del d] makes. *)
Definition released (d : dev_t) (l : list entry) : list led_call :=
  match find_dev d l with
  | Some e => [UnregisterSimple (e_trig e)]
  | None => []
  end.

(** The calls into the LED core that [ledtrig_dev_remove_all] makes. *)
Definition released_all (l : list entry) : list led_call :=
  (λ e, UnregisterSimple (e_trig e)) <$> l.

(** The line that [ledtrig_dev_devices_show] prints for device [d]. *)
Definition dev_line (d : dev_t) : string :=
  fmt_u (MAJOR d) +:+ ":" +:+ fmt_u (MINOR d) +:+ LF.

(** The lines for a sequence of devices, first device first. *)
Fixpoint lines (ds : list dev_t) : string :=
  match ds with
  | [] => ""
  | d :: ds' => dev_line d +:+ lines ds'
  end.

(** The two halves of [ledtrig_dev_add]: what it does up to [up_write],
    with the values of [new_dev_trig] and [found] at that point, and what
    it does after it. *)
Definition ledtrig_dev_add_locked (alloc : ptr) (dev' : dev_t) : M (ptr * Z) :=
  new_dev_trig ← ledtrig_dev_new alloc dev';
  if decide (new_dev_trig = NULL) then ret (NULL, 0)
  else
    down_write;;
    found ← list_for_each_entry Head
      (λ dev_trig (found : Z),
         d ← load dev_trig;
         if decide (dev d = dev') then ret (true, 1)
         else ret (false, found))
      0;
    (if decide (found = 0) then list_add (Node new_dev_trig) Head
     else ret tt);;
    up_write;;
    ret (new_dev_trig, found).

Definition ledtrig_dev_add_unlocked (reg : ptr) (dev' : dev_t)
    (at_unlock : ptr * Z) : M unit :=
  let new_dev_trig := at_unlock.1 in
  let found := at_unlock.2 in
  if decide (new_dev_trig = NULL) then ret tt
  else if decide (found = 0) then
    d ← load new_dev_trig;
    t ← led_trigger_register_simple (name d) reg;
    d ← load new_dev_trig;
    store new_dev_trig (DevData (name d) (dev d) t (node d))
  else
    modify (add_printk
      ("device " +:+ fmt_u (MAJOR dev') +:+ ":" +:+ fmt_u (MINOR dev')
       +:+ " already registered" +:+ LF));;
    kfree new_dev_trig.

(** The first half step by step, with the values of [new_dev_trig] and
    [found] handed on: the allocation, [down_write] and the search of the
    list; then the [list_add].  The [up_write] comes third. *)
Definition ledtrig_dev_add_search (alloc : ptr) (dev' : dev_t) : M (ptr * Z) :=
  new_dev_trig ← ledtrig_dev_new alloc dev';
  if decide (new_dev_trig = NULL) then ret (NULL, 0)
  else
    down_write;;
    found ← list_for_each_entry Head
      (λ dev_trig (found : Z),
         d ← load dev_trig;
         if decide (dev d = dev') then ret (true, 1)
         else ret (false, found))
      0;
    ret (new_dev_trig, found).

Definition ledtrig_dev_add_link (at_search : ptr * Z) : M unit :=
  let new_dev_trig := at_search.1 in
  let found := at_search.2 in
  if decide (found = 0) then list_add (Node new_dev_trig) Head
  else ret tt.

(** ** Runs of the module

    A call of one of the entry points, with what the environment decides
    at that call: the address [kzalloc] hands out and the trigger the LED
    core stores. *)
Inductive call : Type :=
| Add (alloc reg : ptr) (d : dev_t)
| Del (d : dev_t)
| Activity (d : dev_t)
| Show (buf : string)
| RemoveAll.

Definition exec (c : call) : M unit :=
  match c with
  | Add alloc reg d => ledtrig_dev_add alloc reg d
  | Del d => ledtrig_dev_del d
  | Activity d => ledtrig_dev_activity d
  | Show buf => _ ← ledtrig_dev_devices_show buf; ret tt
  | RemoveAll => ledtrig_dev_remove_all
  end.

Fixpoint run (cs : list call) : M unit :=
  match cs with
  | [] => ret tt
  | c :: cs' => exec c;; run cs'
  end.

(** The triggers that are registered with the LED core after the calls
    [cs]. *)
Definition live_step (acc : gset ptr) (c : led_call) : gset ptr :=
  match c with
  | RegisterSimple _ t => if decide (t = NULL) then acc else {[t]} ∪ acc
  | UnregisterSimple t => acc ∖ {[t]}
  | BlinkOneshot _ _ _ _ => acc
  end.

Definition live_triggers (cs : list led_call) : gset ptr :=
  foldl live_step ∅ cs.

(** What the environment may do at a call: [kzalloc] fails or returns
    memory that is not in use, and the LED core fails or returns a trigger
    that is not registered already. *)
Definition allowed (c : call) (s : state) : Prop :=
  match c with
  | Add alloc reg d =>
      (alloc = NULL ∨ mem s !! alloc = None) ∧
      (reg = NULL ∨ reg ∉ live_triggers (led_calls s))
  | _ => True
  end.

Inductive reachable : state → Prop :=
| reachable_init : reachable init_state
| reachable_step c s s' :
    reachable s → allowed c s → exec c s = Ret tt s' → reachable s'.

(** The handles of the entries whose trigger was registered. *)
Definition handles (l : list entry) : list ptr :=
  filter (λ t, t ≠ NULL) (e_trig <$> l).

Record inv (s : state) (l : list entry) : Prop := Inv {
  inv_list : is_devs_list s l;
  inv_lock : devs_list_lock s = unlocked;
  inv_devs : NoDup (devs l);
  inv_names : ∀ e, e ∈ l → e_name e = dev_name (e_dev e);
  inv_live : live_triggers (led_calls s) = list_to_set (handles l);
  inv_handles : NoDup (handles l)
}.

(** ** The registry as a machine on lists of entries *)

Definition next_list (c : call) (l : list entry) : list entry :=
  match c with
  | Add a reg d =>
      if decide (a = NULL) then l
      else if decide (d ∈ devs l) then l
      else Entry a (dev_name d) d reg :: l
  | Del d => remove_dev d l
  | RemoveAll => []
  | Activity _ | Show _ => l
  end.

Definition next_calls (c : call) (l : list entry) : list led_call :=
  match c with
  | Add a reg d =>
      if decide (a = NULL) then []
      else if decide (d ∈ devs l) then []
      else [RegisterSimple (dev_name d) reg]
  | Del d => released d l
  | RemoveAll => released_all l
  | Activity d => fired d l
  | Show _ => []
  end.

Definition next_msgs (c : call) (l : list entry) : list string :=
  match c with
  | Add a reg d =>
      if decide (a = NULL) then []
      else if decide (d ∈ devs l) then [warning d]
      else []
  | _ => []
  end.

(** ** Sequences of calls *)

(** The environment behaves along the calls [cs] made from state [s]. *)
Fixpoint env_ok (cs : list call) (s : state) : Prop :=
  match cs with
  | [] => True
  | c :: cs' => allowed c s ∧ ∀ s', exec c s = Ret tt s' → env_ok cs' s'
  end.

Definition next_lists (cs : list call) (l : list entry) : list entry :=
  foldl (λ l c, next_list c l) l cs.

(** *** The devices of the list, call by call *)

Fixpoint drop_dev (d : dev_t) (ds : list dev_t) : list dev_t :=
  match ds with
  | [] => []
  | x :: ds' => if decide (x = d) then ds' else x :: drop_dev d ds'
  end.

(** The devices in the order in which the driver keeps them: a device
    that is added goes in front. *)
Definition newest_first_step (ds : list dev_t) (c : call) : list dev_t :=
  match c with
  | Add a _ d =>
      if decide (a = NULL) then ds
      else if decide (d ∈ ds) then ds else d :: ds
  | Del d => drop_dev d ds
  | RemoveAll => []
  | Activity _ | Show _ => ds
  end.

Definition newest_first (cs : list call) : list dev_t :=
  foldl newest_first_step [] cs.

(** The devices in insertion order, oldest first, as the specification
    has it: a device that is added goes to the end. *)
Definition insertion_order_step (ds : list dev_t) (c : call) : list dev_t :=
  match c with
  | Add a _ d =>
      if decide (a = NULL) then ds
      else if decide (d ∈ ds) then ds else ds ++ [d]
  | Del d => drop_dev d ds
  | RemoveAll => []
  | Activity _ | Show _ => ds
  end.

Definition insertion_order (cs : list call) : list dev_t :=
  foldl insertion_order_step [] cs.

(** ** Counting registrations *)

Definition net_step (n : Z) (c : led_call) : Z :=
  match c with
  | RegisterSimple _ _ => n + 1
  | UnregisterSimple _ => n - 1
  | BlinkOneshot _ _ _ _ => n
  end.

(** Calls of [led_trigger_register_simple] minus calls of
    [led_trigger_unregister_simple]. *)
Definition net_registrations (cs : list led_call) : Z := foldl net_step 0 cs.

(** The entries used in the examples below: sda (8:0) and sdb (8:16). *)
Definition sda : entry := Entry 1%N "dev-8:0" (MKDEV 8 0) 11%N.
Definition sdb : entry := Entry 2%N "dev-8:16" (MKDEV 8 16) 12%N.

(** ** The texts that the debugfs files accept *)

Definition decimal (ds : list ascii) : Z :=
  foldl (λ acc c, acc * 10 + digit_val c) 0 ds.

Definition no_digit_ahead (s : list ascii) : Prop :=
  match s with
  | [] => True
  | c :: _ => isdigit c = false
  end.

(** The pattern of the specification: digits, a colon, digits, and
    nothing else. *)
Definition is_major_minor (s : list ascii) (ma mi : Z) : Prop :=
  ∃ ds1 ds2,
    s = ds1 ++ ":"%char :: ds2 ∧
    Forall isdigit ds1 ∧ ds1 ≠ [] ∧ Forall isdigit ds2 ∧ ds2 ≠ [] ∧
    ma = decimal ds1 ∧ mi = decimal ds2.

(** What the scan accepts: the pattern with white space allowed before
    each number, and anything behind the second number. *)
Definition begins_with_major_minor (s : list ascii) (ma mi : Z) : Prop :=
  ∃ ws1 ds1 ws2 ds2 rest,
    s = ws1 ++ ds1 ++ ":"%char :: ws2 ++ ds2 ++ rest ∧
    Forall isspace ws1 ∧ Forall isdigit ds1 ∧ ds1 ≠ [] ∧
    Forall isspace ws2 ∧ Forall isdigit ds2 ∧ ds2 ≠ [] ∧
    no_digit_ahead rest ∧
    ma = u32 (decimal ds1) ∧ mi = u32 (decimal ds2).

(** The pattern with white space allowed before each number, and nothing
    behind the second number. *)
Definition major_minor_text (s : list ascii) (ma mi : Z) : Prop :=
  ∃ ws1 ds1 ws2 ds2,
    s = ws1 ++ ds1 ++ ":"%char :: ws2 ++ ds2 ∧
    Forall isspace ws1 ∧ Forall isdigit ds1 ∧ ds1 ≠ [] ∧
    Forall isspace ws2 ∧ Forall isdigit ds2 ∧ ds2 ≠ [] ∧
    ma = u32 (decimal ds1) ∧ mi = u32 (decimal ds2).

(** The bytes [w] hold such a text and, behind it, a byte that is no
    digit: the second number ends inside [w]. *)
Definition delimited_major_minor (w : list ascii) (ma mi : Z) : Prop :=
  ∃ pat c rest,
    w = pat ++ c :: rest ∧ major_minor_text pat ma mi ∧ isdigit c = false.

(** The bytes [w] end where such a text could still go on: they are the
    beginning of one, or a whole one with nothing behind it. *)
Definition cut_short (w : list ascii) : Prop :=
  ∃ more ma mi, major_minor_text (w ++ more) ma mi.

Definition no_space_ahead (s : list ascii) : Prop :=
  match s with
  | [] => True
  | c :: _ => isspace c = false
  end.

(** What [sscanf] does with the format of [get_dev_from_user]. *)
Definition scan_major_minor (text : list ascii) : list Z :=
  match text with
  | [] => []
  | _ :: _ =>
      match skip_spaces text with
      | [] => []
      | d :: s1 =>
          if isdigit d then
            let r := simple_strtoul (d :: s1) 0 in
            u32 r.1 ::
            match r.2 with
            | [] => []
            | c :: s2 =>
                if decide (":"%char = c) then
                  match s2 with
                  | [] => []
                  | _ :: _ =>
                      match skip_spaces s2 with
                      | [] => []
                      | d2 :: s3 =>
                          if isdigit d2 then
                            [u32 (simple_strtoul (d2 :: s3) 0).1]
                          else []
                      end
                  end
                else []
            end
          else []
      end
  end.

(** * Proofs *)

(** ** Lemmas on chains *)

Lemma hd_ptr_app l1 l2 d : hd_ptr (l1 ++ l2) d = hd_ptr l1 (hd_ptr l2 d).
Proof. by destruct l1. Qed.

Lemma last_ptr_app l1 l2 d : last_ptr (l1 ++ l2) d = last_ptr l2 (last_ptr l1 d).
Proof. revert d. induction l1 as [|e l1 IH]; intros d; simpl; [done|apply IH]. Qed.

Lemma dom_objs prv l nxt : dom (objs prv l nxt) = list_to_set (addrs l).
Proof.
  revert prv. induction l as [|e l IH]; intros prv; simpl.
  - apply dom_empty_L.
  - rewrite dom_insert_L, IH. done.
Qed.

Lemma lookup_objs_None prv l nxt a :
  a ∉ addrs l → objs prv l nxt !! a = None.
Proof.
  intros Ha. apply not_elem_of_dom. rewrite dom_objs.
  by rewrite elem_of_list_to_set.
Qed.

Lemma lookup_objs_is_Some prv l nxt a :
  is_Some (objs prv l nxt !! a) → a ∈ addrs l.
Proof.
  intros Ha. apply elem_of_dom in Ha. rewrite dom_objs in Ha.
  by apply elem_of_list_to_set in Ha.
Qed.

Lemma objs_app prv l1 l2 nxt :
  objs prv (l1 ++ l2) nxt =
  objs prv l1 (hd_ptr l2 nxt) ∪ objs (last_ptr l1 prv) l2 nxt.
Proof.
  revert prv. induction l1 as [|e l1 IH]; intros prv; simpl.
  - by rewrite (left_id_L ∅ (∪)).
  - rewrite IH, hd_ptr_app. by rewrite insert_union_l.
Qed.

Lemma size_objs prv l nxt :
  NoDup (addrs l) → size (objs prv l nxt) = length l.
Proof.
  revert prv. induction l as [|e l IH]; intros prv Hnd; simpl.
  - apply map_size_empty.
  - apply NoDup_cons in Hnd as [Hni Hnd].
    rewrite map_size_insert_None by by apply lookup_objs_None.
    by rewrite IH.
Qed.

Lemma lookup_objs_mid prv l1 e l2 nxt :
  NoDup (addrs (l1 ++ e :: l2)) →
  objs prv (l1 ++ e :: l2) nxt !! e_addr e =
  Some (obj e (last_ptr l1 prv) (hd_ptr l2 nxt)).
Proof.
  intros Hnd. rewrite objs_app. simpl.
  unfold addrs in Hnd. rewrite fmap_app in Hnd.
  apply NoDup_app in Hnd as (_ & Hni & _).
  rewrite lookup_union_r.
  - by rewrite lookup_insert_eq.
  - apply lookup_objs_None. intros Hin. apply (Hni _ Hin). simpl. left.
Qed.

Lemma is_devs_list_linked s l : is_devs_list s l → linked s l.
Proof. intros (Hh & Hm & Hnd & _). split_and!; [done| by rewrite Hm |done]. Qed.

Lemma linked_lookup s l1 e l2 :
  linked s (l1 ++ e :: l2) →
  mem s !! e_addr e = Some (obj e (last_ptr l1 Head) (hd_ptr l2 Head)).
Proof.
  intros (_ & Hsub & Hnd).
  eapply lookup_weaken; [|exact Hsub]. by apply lookup_objs_mid.
Qed.

Lemma linked_size s l : linked s l → (length l ≤ size (mem s))%nat.
Proof.
  intros (_ & Hsub & Hnd). rewrite <- (size_objs Head l Head Hnd).
  by apply map_subseteq_size.
Qed.

Lemma load_head_Head s : load_head Head s = Ret (devs_list s) s.
Proof. done. Qed.

Lemma load_head_Node s a d :
  mem s !! a = Some d → load_head (Node a) s = Ret (node d) s.
Proof. intros H. unfold load_head, bind, load, ret. by rewrite H. Qed.

Lemma bind_eq {A B} (m : M A) (f : A → M B) s :
  bind m f s =
  match m s with Ret a s' => f a s' | Sleeps => Sleeps | Oops => Oops end.
Proof. done. Qed.

Lemma list_for_each_from_scan {A} (body : ptr → A → M (bool * A)) s :
  quiet body →
  ∀ l2 l1 fuel a,
    linked s (l1 ++ l2) →
    (length l2 < fuel)%nat →
    list_for_each_from fuel Head (hd_ptr l2 Head) (entry_body body) a s
    = scan body l2 a s.
Proof.
  intros Hq. induction l2 as [|e l2 IH]; intros l1 fuel a Hl Hf.
  - destruct fuel; [simpl in Hf; lia|]. done.
  - destruct fuel; [simpl in Hf; lia|]. simpl in Hf. simpl.
    rewrite !bind_eq. unfold entry_body at 1. rewrite bind_eq. simpl.
    rewrite bind_eq.
    destruct (body (e_addr e) a s) as [[b a'] s'| |] eqn:Hb; [|done..].
    simpl. destruct b; [done|].
    assert (s' = s) as -> by (eapply Hq; [exact Hb|done]).
    rewrite bind_eq.
    rewrite (load_head_Node s _ _ (linked_lookup s l1 e l2 Hl)). simpl.
    apply (IH (l1 ++ [e])); [by rewrite <- app_assoc | lia].
Qed.

Lemma list_for_each_entry_scan {A} (body : ptr → A → M (bool * A)) s l a :
  quiet body → linked s l →
  list_for_each_entry Head body a s = scan body l a s.
Proof.
  intros Hq Hl. unfold list_for_each_entry, list_for_each.
  pose proof Hl as (Hh & _ & _).
  rewrite bind_eq. unfold get. cbv beta iota.
  rewrite bind_eq, load_head_Head. cbv beta iota.
  rewrite Hh. unfold head_of. cbn [next].
  apply (list_for_each_from_scan body s Hq l []); [done|].
  pose proof (linked_size s l Hl). lia.
Qed.

Lemma load_eq s a d : mem s !! a = Some d → load a s = Ret d s.
Proof. intros H. unfold load. by rewrite H. Qed.

Lemma linked_set_lock k s l : linked s l → linked (set_lock k s) l.
Proof. by intros (? & ? & ?). Qed.

Lemma find_dev_None d l : find_dev d l = None ↔ d ∉ devs l.
Proof.
  unfold find_dev, devs. induction l as [|e l IH]; simpl.
  - split; [intros _; apply not_elem_of_nil | done].
  - rewrite not_elem_of_cons, <- IH. case_bool_decide.
    + split; [done|]. intros [? _]. congruence.
    + split; [intros ?; split; [congruence|done] | by intros [_ ?]].
Qed.

Lemma find_dev_Some d l e :
  find_dev d l = Some e → e ∈ l ∧ e_dev e = d.
Proof.
  unfold find_dev. induction l as [|e' l IH]; simpl; [done|].
  case_bool_decide.
  - intros [= ->]. split; [left|done].
  - intros H'. destruct (IH H'). split; [by right|done].
Qed.

Lemma find_dev_unique d l e :
  NoDup (devs l) → e ∈ l → e_dev e = d → find_dev d l = Some e.
Proof.
  unfold find_dev, devs. induction l as [|e' l IH]; simpl; intros Hnd Hin Hd.
  - by apply elem_of_nil in Hin.
  - apply NoDup_cons in Hnd as [Hni Hnd].
    apply elem_of_cons in Hin as [->|Hin].
    + by rewrite bool_decide_eq_true_2.
    + rewrite bool_decide_eq_false_2; [by apply IH|].
      intros Heq. apply Hni. rewrite Heq, <- Hd.
      by apply list_elem_of_fmap_2.
Qed.

Lemma scan_activity d s l2 l1 :
  linked s (l1 ++ l2) →
  scan
    (λ dev_trig (_ : unit),
       d' ← load dev_trig;
       if decide (dev d' = d) then
         led_trigger_blink_oneshot (trig d') blink_delay blink_delay 0;;
         ret (true, tt)
       else ret (false, tt)) l2 tt s
  = Ret tt (match find_dev d l2 with
            | Some e => add_led_calls [BlinkOneshot (e_trig e) 30 30 0] s
            | None => s
            end).
Proof.
  revert l1. induction l2 as [|e l2 IH]; intros l1 Hl; [done|].
  simpl. rewrite !bind_eq.
  rewrite (load_eq _ _ _ (linked_lookup s l1 e l2 Hl)). simpl.
  unfold find_dev. simpl.
  destruct (decide (e_dev e = d)) as [Hd|Hd].
  - by rewrite bool_decide_eq_true_2.
  - rewrite bool_decide_eq_false_2 by done. simpl.
    apply (IH (l1 ++ [e])). by rewrite <- app_assoc.
Qed.

Lemma ledtrig_dev_activity_run d s l :
  is_devs_list s l →
  writer (devs_list_lock s) = false →
  ledtrig_dev_activity d s = Ret tt (add_led_calls (fired d l) s).
Proof.
  intros Hl Hw. apply is_devs_list_linked in Hl.
  destruct s as [[w r] h m cs msgs]. simpl in Hw. subst w.
  unfold ledtrig_dev_activity. rewrite bind_eq. simpl.
  rewrite bind_eq.
  erewrite list_for_each_entry_scan; cycle 1.
  - intros p [] s0 [b []] s' Hb Hf. simpl in Hf. subst b.
    rewrite bind_eq in Hb. unfold load in Hb.
    destruct (mem s0 !! p); [|done]. destruct (decide _); [done|].
    by injection Hb.
  - apply (linked_set_lock _ _ l), Hl.
  - rewrite (scan_activity d _ l []) by (apply (linked_set_lock _ _ l), Hl).
    unfold fired, add_led_calls. destruct (find_dev d l); simpl.
    + done.
    + by rewrite (right_id_L [] (++)).
Qed.

Lemma ledtrig_dev_new_NULL d s : ledtrig_dev_new NULL d s = Ret NULL s.
Proof. done. Qed.

Lemma ledtrig_dev_new_run a d s :
  a ≠ NULL →
  ledtrig_dev_new a d s = Ret a (set_mem (<[a := candidate a d]> (mem s)) s).
Proof.
  intros Ha. unfold ledtrig_dev_new, kzalloc, INIT_LIST_HEAD, store_head.
  rewrite bind_eq. rewrite decide_False by done. rewrite decide_False by done.
  unfold bind, load, store, ret. simpl.
  repeat (progress (rewrite ?lookup_insert_eq; simpl)).
  unfold set_mem. simpl. by rewrite !insert_insert_eq.
Qed.

(** *** Linking and unlinking *)

Ltac kunfold :=
  unfold list_add, __list_add, list_del, __list_del, set_next, set_prev,
    INIT_LIST_HEAD, load_head, store_head, ledtrig_dev_release,
    led_trigger_unregister_simple, led_trigger_register_simple,
    led_trigger_blink_oneshot, list_entry, up_write, down_write, up_read,
    down_read, down_read_trylock,
    load, store, kfree, modify, get, bind, ret.

Ltac klookup :=
  repeat (progress
    (unfold set_mem, set_devs_list, set_lock, add_led_calls, add_printk;
     cbn [mem devs_list devs_list_lock led_calls printk next prev node name
          dev trig obj hd_ptr last_ptr head_of e_addr e_name e_dev e_trig
          writer readers fst snd];
     rewrite ?lookup_insert_eq, ?lookup_delete_eq;
     rewrite ?lookup_insert_ne by done)).

Ltac kexec := kunfold; klookup.

(** Two maps built by inserting and deleting are equal when they agree at
    every key. *)
Ltac kmap :=
  apply map_eq; intros ?;
  repeat (rewrite lookup_insert || rewrite lookup_delete);
  repeat case_decide; simplify_eq; try done.

Lemma objs_frame prv l1 mid mid' l2 nxt i :
  i ∉ addrs mid → i ∉ addrs mid' →
  (l1 = [] ∨ hd_ptr (mid ++ l2) nxt = hd_ptr (mid' ++ l2) nxt) →
  (l2 = [] ∨ last_ptr mid (last_ptr l1 prv) = last_ptr mid' (last_ptr l1 prv)) →
  objs prv (l1 ++ mid ++ l2) nxt !! i = objs prv (l1 ++ mid' ++ l2) nxt !! i.
Proof.
  intros Hi Hi' H1 H2. rewrite !objs_app, !lookup_union.
  rewrite (lookup_objs_None _ mid), (lookup_objs_None _ mid') by done.
  f_equal; [|f_equal].
  - destruct H1 as [->| ->]; done.
  - destruct H2 as [->|H2]; [done|].
    by rewrite H2.
Qed.

Lemma list_add_run k c cd l cs msgs :
  c ∉ addrs l → NoDup (addrs l) →
  list_add (Node c) Head
    (State k (head_of l) (<[c := cd]> (objs Head l Head)) cs msgs)
  = Ret tt
      (mk_state k (Entry c (name cd) (dev cd) (trig cd) :: l) cs msgs).
Proof.
  intros Hc Hnd. unfold mk_state. destruct l as [|e l].
  - kexec. cbn [objs]. klookup. by rewrite !insert_insert_eq.
  - apply not_elem_of_cons in Hc as [Hce Hc].
    apply NoDup_cons in Hnd as [He Hnd].
    kexec. cbn [objs]. klookup.
    f_equal. f_equal. kmap.
Qed.

Lemma objs_insert_mid prv l1 x l2 nxt :
  e_addr x ∉ addrs l1 →
  objs prv (l1 ++ x :: l2) nxt =
  <[e_addr x := obj x (last_ptr l1 prv) (hd_ptr l2 nxt)]>
    (objs prv l1 (Node (e_addr x)) ∪ objs (Node (e_addr x)) l2 nxt).
Proof.
  intros Hx. rewrite objs_app. cbn [objs hd_ptr].
  by rewrite insert_union_r by by apply lookup_objs_None.
Qed.

Lemma union_insert_r (A B : gmap ptr ledtrig_dev_data) i x :
  A !! i = None → A ∪ <[i := x]> B = <[i := x]> (A ∪ B).
Proof. intros H. by rewrite insert_union_r. Qed.

Lemma NoDup_addrs_mid l1 x l2 :
  NoDup (addrs (l1 ++ x :: l2)) →
  (e_addr x ∉ addrs l1) ∧ (e_addr x ∉ addrs l2) ∧
  NoDup (addrs l1) ∧ NoDup (addrs l2) ∧
  (∀ a, a ∈ addrs l1 → a ∉ addrs l2).
Proof.
  unfold addrs. rewrite fmap_app, fmap_cons.
  intros (H1 & H2 & H3)%NoDup_app.
  apply NoDup_cons in H3 as [H3 H4].
  split_and!; [|done..|].
  - intros Hin. apply (H2 _ Hin). left.
  - intros a Ha Ha'. apply (H2 _ Ha). by right.
Qed.

Lemma list_del_release_run k l1 e l2 cs msgs :
  NoDup (addrs (l1 ++ e :: l2)) → e_addr e ≠ NULL →
  bind (list_del (Node (e_addr e))) (λ _, ledtrig_dev_release (e_addr e))
    (mk_state k (l1 ++ e :: l2) cs msgs)
  = Ret tt
      (mk_state k (l1 ++ l2) (cs ++ [UnregisterSimple (e_trig e)]) msgs).
Proof.
  intros Hnd Hnull. unfold mk_state.
  destruct l1 as [|p l1 _] using rev_ind; destruct l2 as [|n l2].
  - kexec. cbn [objs app]. klookup. rewrite decide_False by done. klookup.
    do 2 f_equal. kmap.
  - cbn [app] in *.
    apply (NoDup_addrs_mid []) in Hnd as (_ & He2 & _ & _ & _).
    pose proof He2 as [Hen He2']%not_elem_of_cons.
    kexec. cbn [objs]. klookup. rewrite decide_False by done. klookup.
    do 2 f_equal. kmap. symmetry. by apply lookup_objs_None.
  - rewrite <- !app_assoc in *. cbn [app] in *.
    apply NoDup_addrs_mid in Hnd as (Hp1 & Hp2 & _ & _ & H12).
    apply not_elem_of_cons in Hp2 as [Hpe _].
    assert (e_addr e ∉ addrs l1) as He1.
    { intros Hin. apply (H12 _ Hin). left. }
    rewrite (objs_insert_mid Head l1 p [e]) by done.
    rewrite (objs_insert_mid Head l1 p []) by done.
    cbn [objs]. rewrite (right_id_L ∅ (∪)).
    rewrite union_insert_r by by apply lookup_objs_None.
    rewrite (right_id_L ∅ (∪)).
    unfold head_of. rewrite !hd_ptr_app, !last_ptr_app.
    kexec. rewrite decide_False by done. klookup.
    do 2 f_equal. kmap. symmetry. by apply lookup_objs_None.
  - rewrite <- !app_assoc in *. cbn [app] in *.
    apply NoDup_addrs_mid in Hnd as (Hp1 & Hp2 & _ & Hnd2 & H12).
    apply not_elem_of_cons in Hp2 as [Hpe [Hpn _]%not_elem_of_cons].
    apply (NoDup_addrs_mid []) in Hnd2 as (_ & He2 & _ & _ & _).
    pose proof He2 as [Hen He2']%not_elem_of_cons.
    assert (e_addr e ∉ addrs l1) as He1.
    { intros Hin. apply (H12 _ Hin). left. }
    assert (e_addr n ∉ addrs l1) as Hn1.
    { intros Hin. apply (H12 _ Hin). right. left. }
    rewrite (objs_insert_mid Head l1 p (e :: n :: l2)) by done.
    rewrite (objs_insert_mid Head l1 p (n :: l2)) by done.
    cbn [objs]. rewrite !union_insert_r by by apply lookup_objs_None.
    unfold head_of. rewrite !hd_ptr_app, !last_ptr_app.
    kexec. rewrite decide_False by done. klookup.
    do 2 f_equal. kmap. symmetry.
    apply lookup_union_None. split; by apply lookup_objs_None.
Qed.

Lemma list_del_release_then {A} (kont : M A) k l1 e l2 cs msgs :
  NoDup (addrs (l1 ++ e :: l2)) → e_addr e ≠ NULL →
  bind (list_del (Node (e_addr e)))
    (λ _, bind (ledtrig_dev_release (e_addr e)) (λ _, kont))
    (mk_state k (l1 ++ e :: l2) cs msgs)
  = kont (mk_state k (l1 ++ l2) (cs ++ [UnregisterSimple (e_trig e)]) msgs).
Proof.
  intros Hnd Hnull.
  pose proof (list_del_release_run k l1 e l2 cs msgs Hnd Hnull) as H.
  rewrite bind_eq in H. rewrite bind_eq.
  destruct (list_del _ _) as [[] s1| |]; [|done..].
  rewrite bind_eq. by rewrite H.
Qed.

Lemma scan_found d s l2 l1 (found : Z) :
  linked s (l1 ++ l2) →
  scan
    (λ dev_trig (found : Z),
       d' ← load dev_trig;
       if decide (dev d' = d) then ret (true, 1) else ret (false, found))
    l2 found s
  = Ret (if decide (d ∈ devs l2) then 1 else found) s.
Proof.
  revert l1. induction l2 as [|e l2 IH]; intros l1 Hl.
  - cbn [scan]. rewrite decide_False; [done|]. apply not_elem_of_nil.
  - cbn [scan]. rewrite !bind_eq.
    rewrite (load_eq _ _ _ (linked_lookup s l1 e l2 Hl)).
    cbn [dev obj].
    destruct (decide (e_dev e = d)) as [Hd|Hd].
    + unfold ret. cbn [fst snd]. rewrite decide_True; [done|].
      rewrite <- Hd. left.
    + unfold ret at 1. cbn [fst snd].
      rewrite (IH (l1 ++ [e])) by by rewrite <- app_assoc.
      f_equal. unfold devs. rewrite fmap_cons.
      destruct (decide (d ∈ e_dev <$> l2)).
      * rewrite decide_True; [done|]. by right.
      * rewrite decide_False; [done|]. by apply not_elem_of_cons.
Qed.

Lemma ledtrig_dev_add_NULL reg d s : ledtrig_dev_add NULL reg d s = Ret tt s.
Proof. done. Qed.

Lemma ledtrig_dev_add_dup a reg d l cs msgs :
  NoDup (addrs l) → a ∉ addrs l → a ≠ NULL → d ∈ devs l →
  ledtrig_dev_add a reg d (mk_state unlocked l cs msgs)
  = Ret tt (mk_state unlocked l cs (msgs ++ [warning d])).
Proof.
  intros Hnd Ha Hnull Hd. unfold ledtrig_dev_add.
  rewrite bind_eq, ledtrig_dev_new_run by done.
  rewrite decide_False by done.
  rewrite bind_eq. unfold down_write, mk_state, unlocked. klookup.
  rewrite bind_eq.
  erewrite (list_for_each_entry_scan _ _ l); cycle 1.
  - intros p f s0 [b f'] s' Hb Hf. simpl in Hf. subst b.
    rewrite bind_eq in Hb. unfold load, ret in Hb.
    destruct (mem s0 !! p); [|done]. destruct (decide _); [done|].
    by injection Hb.
  - split_and!; [done| |done]. simpl.
    apply insert_subseteq. by apply lookup_objs_None.
  - rewrite (scan_found d _ l []); cycle 1.
    { split_and!; [done| |done]. simpl.
      apply insert_subseteq. by apply lookup_objs_None. }
    destruct (decide (d ∈ devs l)); [|done].
    rewrite bind_eq. rewrite decide_False by done.
    rewrite decide_False by done.
    kexec. rewrite decide_False by done. klookup.
    do 2 f_equal. apply delete_insert_id. by apply lookup_objs_None.
Qed.

Lemma ledtrig_dev_add_new a reg d l cs msgs :
  NoDup (addrs l) → a ∉ addrs l → a ≠ NULL → d ∉ devs l →
  ledtrig_dev_add a reg d (mk_state unlocked l cs msgs)
  = Ret tt
      (mk_state unlocked (Entry a (dev_name d) d reg :: l)
         (cs ++ [RegisterSimple (dev_name d) reg]) msgs).
Proof.
  intros Hnd Ha Hnull Hd. unfold ledtrig_dev_add.
  rewrite bind_eq, ledtrig_dev_new_run by done.
  rewrite decide_False by done.
  rewrite bind_eq. unfold down_write, mk_state, unlocked. klookup.
  rewrite bind_eq.
  erewrite (list_for_each_entry_scan _ _ l); cycle 1.
  - intros p f s0 [b f'] s' Hb Hf. simpl in Hf. subst b.
    rewrite bind_eq in Hb. unfold load, ret in Hb.
    destruct (mem s0 !! p); [|done]. destruct (decide _); [done|].
    by injection Hb.
  - split_and!; [done| |done]. simpl.
    apply insert_subseteq. by apply lookup_objs_None.
  - rewrite (scan_found d _ l []); cycle 1.
    { split_and!; [done| |done]. simpl.
      apply insert_subseteq. by apply lookup_objs_None. }
    destruct (decide (d ∈ devs l)); [done|]. cbv beta iota.
    rewrite decide_True by done.
    rewrite bind_eq, list_add_run by done.
    unfold mk_state. kexec. rewrite decide_True by done.
    cbn [objs]. klookup.
    do 2 f_equal. kmap.
Qed.

Lemma scan_del d k msgs l2 l1 cs :
  NoDup (addrs (l1 ++ l2)) → NULL ∉ addrs l2 →
  scan
    (λ dev_trig (_ : unit),
       d' ← load dev_trig;
       if decide (dev d' = d) then
         list_del (Node dev_trig);;
         ledtrig_dev_release dev_trig;;
         ret (true, tt)
       else ret (false, tt))
    l2 tt (mk_state k (l1 ++ l2) cs msgs)
  = Ret tt (mk_state k (l1 ++ remove_dev d l2) (cs ++ released d l2) msgs).
Proof.
  revert l1. induction l2 as [|e l2 IH]; intros l1 Hnd Hnull.
  - cbn [scan remove_dev]. unfold released. cbn. by rewrite !app_nil_r.
  - apply not_elem_of_cons in Hnull as [He Hnull].
    cbn [scan remove_dev]. rewrite !bind_eq.
    rewrite (load_eq _ (e_addr e) (obj e (last_ptr l1 Head) (hd_ptr l2 Head)))
      by by apply lookup_objs_mid.
    cbn [dev obj]. unfold released, find_dev. cbn [find].
    destruct (decide (e_dev e = d)) as [Hd|Hd].
    + rewrite bool_decide_eq_true_2 by done.
      by rewrite list_del_release_then by done.
    + rewrite bool_decide_eq_false_2 by done. unfold ret at 1. cbn [fst snd].
      specialize (IH (l1 ++ [e])). rewrite <- !app_assoc in IH.
      by apply IH.
Qed.

Lemma ledtrig_dev_del_run d l cs msgs :
  NoDup (addrs l) → NULL ∉ addrs l →
  ledtrig_dev_del d (mk_state unlocked l cs msgs)
  = Ret tt (mk_state unlocked (remove_dev d l) (cs ++ released d l) msgs).
Proof.
  intros Hnd Hnull. unfold ledtrig_dev_del.
  rewrite bind_eq. unfold down_write, mk_state, unlocked. klookup.
  fold (mk_state (RwSem true 0) l cs msgs).
  rewrite bind_eq.
  erewrite (list_for_each_entry_scan _ _ l); cycle 1.
  - intros p [] s0 [b []] s' Hb Hf. simpl in Hf. subst b.
    rewrite bind_eq in Hb. unfold load in Hb.
    destruct (mem s0 !! p); [|done]. destruct (decide _).
    + rewrite !bind_eq in Hb. destruct (list_del _ _); [|done..].
      rewrite !bind_eq in Hb. destruct (ledtrig_dev_release _ _); done.
    + unfold ret in Hb. by injection Hb.
  - split_and!; done.
  - pose proof (scan_del d (RwSem true 0) msgs l [] cs) as H.
    cbn [app] in H. rewrite H by done.
    by kexec.
Qed.

Lemma remove_all_loop k msgs l :
  ∀ fuel cs,
    NoDup (addrs l) → NULL ∉ addrs l → (length l < fuel)%nat →
    list_for_each_from fuel Head (hd_ptr l Head)
      (λ en (_ : unit),
         h ← load_head en;
         let prv := prev h in
         dev_trig ← list_entry en;
         list_del en;;
         ledtrig_dev_release dev_trig;;
         ret (Continue prv tt))
      tt (mk_state k l cs msgs)
    = Ret tt (mk_state k [] (cs ++ released_all l) msgs).
Proof.
  induction l as [|e l IH]; intros fuel cs Hnd Hnull Hf.
  - destruct fuel; [simpl in Hf; lia|]. cbn. by rewrite app_nil_r.
  - destruct fuel; [simpl in Hf; lia|]. simpl in Hf.
    apply not_elem_of_cons in Hnull as [He Hnull].
    cbn [list_for_each_from hd_ptr].
    rewrite decide_False by done.
    rewrite !bind_eq.
    rewrite (load_head_Node _ (e_addr e) (obj e Head (hd_ptr l Head)))
      by apply (lookup_objs_mid Head [] e l Head Hnd).
    cbn [list_entry node obj prev]. cbv beta iota zeta.
    rewrite bind_eq. unfold ret at 1. cbv beta iota.
    pose proof (list_del_release_then (ret (Continue Head tt))
                  k [] e l cs msgs Hnd (not_eq_sym He)) as H.
    cbn [app] in H. rewrite H. clear H.
    unfold ret at 1. rewrite bind_eq, load_head_Head.
    unfold mk_state at 1. cbn [devs_list head_of next].
    fold (mk_state k l (cs ++ [UnregisterSimple (e_trig e)]) msgs).
    etrans; [apply IH; [by eapply NoDup_cons_1_2|done|lia]|].
    unfold released_all. rewrite fmap_cons. by rewrite <- app_assoc.
Qed.

Lemma ledtrig_dev_remove_all_run l cs msgs :
  NoDup (addrs l) → NULL ∉ addrs l →
  ledtrig_dev_remove_all (mk_state unlocked l cs msgs)
  = Ret tt (mk_state unlocked [] (cs ++ released_all l) msgs).
Proof.
  intros Hnd Hnull. unfold ledtrig_dev_remove_all.
  rewrite bind_eq. unfold down_write, mk_state, unlocked. klookup.
  rewrite bind_eq. unfold list_for_each.
  rewrite bind_eq. unfold get. cbv beta iota.
  rewrite bind_eq, load_head_Head. cbv beta iota.
  cbn [devs_list head_of next mem].
  rewrite size_objs by done.
  fold (mk_state (RwSem true 0) l cs msgs).
  rewrite remove_all_loop by (done || lia).
  by kexec.
Qed.

Lemma string_app_assoc (a b c : string) : (a +:+ b) +:+ c = a +:+ (b +:+ c).
Proof.
  induction a as [|x a IH]; [done|].
  change (String x ((a +:+ b) +:+ c) = String x (a +:+ (b +:+ c))).
  by rewrite IH.
Qed.

Lemma string_app_nil_r (a : string) : a +:+ "" = a.
Proof.
  induction a as [|x a IH]; [done|].
  change (String x (a +:+ "") = String x a). by rewrite IH.
Qed.

Lemma scan_show s l2 l1 buf :
  linked s (l1 ++ l2) →
  scan
    (λ dev_trig (buf : string),
       d ← load dev_trig;
       ret (false,
            seq_printf buf
              (fmt_u (MAJOR (dev d)) +:+ ":" +:+ fmt_u (MINOR (dev d))
               +:+ LF)))
    l2 buf s
  = Ret (buf +:+ lines (devs l2)) s.
Proof.
  revert l1 buf. induction l2 as [|e l2 IH]; intros l1 buf Hl.
  - cbn. by rewrite string_app_nil_r.
  - cbn [scan]. rewrite !bind_eq.
    rewrite (load_eq _ _ _ (linked_lookup s l1 e l2 Hl)).
    cbn [dev obj]. unfold ret at 1. cbn [fst snd].
    rewrite (IH (l1 ++ [e])) by by rewrite <- app_assoc.
    unfold seq_printf, devs. rewrite fmap_cons. cbn [lines].
    fold (dev_line (e_dev e)). by rewrite string_app_assoc.
Qed.

Lemma ledtrig_dev_devices_show_run buf s l :
  is_devs_list s l →
  writer (devs_list_lock s) = false →
  ledtrig_dev_devices_show buf s = Ret (0, buf +:+ lines (devs l)) s.
Proof.
  intros Hl Hw. apply is_devs_list_linked in Hl.
  destruct s as [[w r] h m cs msgs]. simpl in Hw. subst w.
  unfold ledtrig_dev_devices_show. rewrite bind_eq.
  unfold down_read. klookup. rewrite bind_eq.
  erewrite (list_for_each_entry_scan _ _ l); cycle 1.
  - intros p f s0 [b f'] s' Hb Hf.
    rewrite bind_eq in Hb. unfold load, ret in Hb.
    destruct (mem s0 !! p); [|done]. by injection Hb.
  - exact Hl.
  - rewrite (scan_show _ l []) by exact Hl. by kexec.
Qed.

Lemma ledtrig_dev_devices_show_sleeps buf s :
  writer (devs_list_lock s) = true →
  ledtrig_dev_devices_show buf s = Sleeps.
Proof.
  intros Hw. unfold ledtrig_dev_devices_show. rewrite bind_eq.
  unfold down_read. by rewrite Hw.
Qed.

Lemma ledtrig_dev_activity_locked d s :
  writer (devs_list_lock s) = true →
  ledtrig_dev_activity d s = Ret tt s.
Proof.
  intros Hw. unfold ledtrig_dev_activity. rewrite bind_eq.
  unfold down_read_trylock. by rewrite Hw.
Qed.

Lemma is_devs_list_mk_state s l :
  is_devs_list s l →
  s = mk_state (devs_list_lock s) l (led_calls s) (printk s).
Proof. destruct s. intros (Hh & Hm & _). simpl in *. by subst. Qed.

Lemma mk_state_unlocked s l :
  is_devs_list s l → devs_list_lock s = unlocked →
  mk_state unlocked l (led_calls s) (printk s) = s.
Proof. intros Hl Hk. rewrite <- Hk. symmetry. by apply is_devs_list_mk_state. Qed.

Lemma mk_state_is_devs_list k l cs msgs :
  NoDup (addrs l) → NULL ∉ addrs l →
  is_devs_list (mk_state k l cs msgs) l.
Proof. by intros ??. Qed.

Lemma is_devs_list_fresh s l a :
  is_devs_list s l → mem s !! a = None → a ∉ addrs l.
Proof.
  intros (_ & Hm & _) Ha Hin. rewrite Hm in Ha.
  apply not_elem_of_dom in Ha. apply Ha. rewrite dom_objs.
  by apply elem_of_list_to_set.
Qed.

Lemma exec_run c s l :
  is_devs_list s l →
  devs_list_lock s = unlocked →
  allowed c s →
  exec c s =
  Ret tt (mk_state unlocked (next_list c l)
            (led_calls s ++ next_calls c l) (printk s ++ next_msgs c l)).
Proof.
  intros Hl Hk Hc. pose proof Hl as (_ & _ & Hnd & Hnull).
  pose proof (is_devs_list_mk_state s l Hl) as Hs. rewrite Hk in Hs.
  destruct c as [a reg d|d|d|buf|]; cbn [exec next_list next_calls next_msgs].
  - destruct Hc as [[->|Ha] _].
    { rewrite ledtrig_dev_add_NULL. rewrite decide_True by done.
      rewrite !app_nil_r. exact (f_equal _ Hs). }
    destruct (decide (a = NULL)) as [->|Hn].
    { rewrite ledtrig_dev_add_NULL. rewrite !app_nil_r. exact (f_equal _ Hs). }
    pose proof (is_devs_list_fresh s l a Hl Ha) as Hfr.
    rewrite Hs at 1.
    destruct (decide (d ∈ devs l)).
    + rewrite ledtrig_dev_add_dup by done. by rewrite app_nil_r.
    + rewrite ledtrig_dev_add_new by done. by rewrite app_nil_r.
  - rewrite Hs at 1. rewrite ledtrig_dev_del_run by done.
    by rewrite app_nil_r.
  - rewrite (ledtrig_dev_activity_run d s l Hl) by by rewrite Hk.
    rewrite app_nil_r. f_equal. rewrite Hs at 1. done.
  - rewrite bind_eq.
    rewrite (ledtrig_dev_devices_show_run buf s l Hl) by by rewrite Hk.
    rewrite !app_nil_r. exact (f_equal _ Hs).
  - rewrite Hs at 1. rewrite ledtrig_dev_remove_all_run by done.
    by rewrite app_nil_r.
Qed.

(** *** Removing an entry *)

Lemma remove_dev_None d l : d ∉ devs l → remove_dev d l = l.
Proof.
  unfold devs. induction l as [|e l IH]; [done|].
  rewrite fmap_cons. intros [Hd Hl]%not_elem_of_cons. cbn [remove_dev].
  rewrite decide_False by done. by rewrite IH.
Qed.

Lemma remove_dev_Some d l e :
  find_dev d l = Some e →
  ∃ l1 l2, l = l1 ++ e :: l2 ∧ remove_dev d l = l1 ++ l2.
Proof.
  unfold find_dev. induction l as [|x l IH]; [done|].
  cbn [find remove_dev]. destruct (decide (e_dev x = d)) as [Hd|Hd].
  - rewrite bool_decide_eq_true_2 by done. intros [= ->]. by exists [], l.
  - rewrite bool_decide_eq_false_2 by done. intros Hf.
    destruct (IH Hf) as (l1 & l2 & -> & ->). by exists (x :: l1), l2.
Qed.

Lemma remove_dev_cases d l :
  (find_dev d l = None ∧ remove_dev d l = l) ∨
  (∃ e l1 l2, find_dev d l = Some e ∧ e_dev e = d ∧
              l = l1 ++ e :: l2 ∧ remove_dev d l = l1 ++ l2).
Proof.
  destruct (find_dev d l) as [e|] eqn:Hf.
  - right. destruct (remove_dev_Some d l e Hf) as (l1 & l2 & ? & ?).
    exists e, l1, l2. split_and!; try done. by apply find_dev_Some in Hf as [_ ?].
  - left. split; [done|]. apply remove_dev_None. by apply find_dev_None.
Qed.

Lemma NoDup_fmap_remove {B} (f : entry → B) l1 e l2 :
  NoDup (f <$> (l1 ++ e :: l2)) → NoDup (f <$> (l1 ++ l2)).
Proof.
  rewrite !fmap_app, fmap_cons. intros (H1 & H2 & H3)%NoDup_app.
  apply NoDup_cons in H3 as [_ H3].
  apply NoDup_app. split_and!; [done| |done].
  intros x Hx Hx'. apply (H2 x Hx). by right.
Qed.

Lemma handles_app l1 l2 : handles (l1 ++ l2) = handles l1 ++ handles l2.
Proof. unfold handles. by rewrite fmap_app, filter_app. Qed.

Lemma handles_cons e l :
  handles (e :: l) =
  if decide (e_trig e = NULL) then handles l else e_trig e :: handles l.
Proof.
  unfold handles. rewrite fmap_cons, filter_cons.
  destruct (decide (e_trig e = NULL)).
  - by rewrite decide_False by (intros H; by apply H).
  - by rewrite decide_True by done.
Qed.

Lemma NULL_not_handle l : NULL ∉ handles l.
Proof. unfold handles. intros [H _]%list_elem_of_filter. by apply H. Qed.

Lemma live_triggers_app cs cs' :
  live_triggers (cs ++ cs') = foldl live_step (live_triggers cs) cs'.
Proof. unfold live_triggers. by rewrite foldl_app. Qed.

Lemma live_fired acc d l : foldl live_step acc (fired d l) = acc.
Proof. unfold fired. by destruct (find_dev d l). Qed.

Lemma live_released_all l : ∀ acc,
  foldl live_step acc (released_all l) = acc ∖ list_to_set (e_trig <$> l).
Proof.
  induction l as [|e l IH]; intros acc; cbn.
  - set_solver.
  - rewrite IH. set_solver.
Qed.

Lemma handles_subseteq l :
  (list_to_set (handles l) : gset ptr) ⊆ list_to_set (e_trig <$> l).
Proof.
  intros x. rewrite !elem_of_list_to_set. unfold handles.
  by intros [_ ?]%list_elem_of_filter.
Qed.

(** ** The invariant of the registry *)

Lemma inv_init : inv init_state [].
Proof.
  split; try done.
  - split_and!; try done; [apply NoDup_nil_2 | apply not_elem_of_nil].
  - apply NoDup_nil_2.
  - intros e He. by apply elem_of_nil in He.
  - apply NoDup_nil_2.
Qed.

Lemma inv_step c s l :
  inv s l → allowed c s →
  ∃ s', exec c s = Ret tt s' ∧ inv s' (next_list c l) ∧
        led_calls s' = led_calls s ++ next_calls c l ∧
        printk s' = printk s ++ next_msgs c l.
Proof.
  intros [Hl Hk Hd Hn Hlive Hh] Hc.
  eexists. split; [by apply exec_run|]. split; [|done].
  pose proof Hl as (_ & _ & Hnd & Hnull).
  destruct c as [a reg d|d|d|buf|]; cbn [next_list next_calls next_msgs].
  - destruct Hc as [Ha Hreg]. destruct (decide (a = NULL)) as [->|Hnn].
    { split; try done. cbn. by rewrite app_nil_r. }
    destruct Ha as [?|Ha]; [done|].
    pose proof (is_devs_list_fresh s l a Hl Ha) as Hfr.
    destruct (decide (d ∈ devs l)) as [Hin|Hni].
    { split; try done. cbn. by rewrite app_nil_r. }
    split; cbn [mk_state devs_list_lock led_calls].
    + apply mk_state_is_devs_list.
      * unfold addrs. rewrite fmap_cons. by apply NoDup_cons.
      * unfold addrs. rewrite fmap_cons. apply not_elem_of_cons. by split.
    + done.
    + unfold devs. rewrite fmap_cons. by apply NoDup_cons.
    + intros e [->|He]%elem_of_cons; [done|by apply Hn].
    + rewrite live_triggers_app. cbn [foldl live_step].
      rewrite handles_cons. cbn [e_trig]. rewrite Hlive.
      destruct (decide (reg = NULL)); [done|]. by rewrite list_to_set_cons.
    + rewrite handles_cons. cbn [e_trig].
      destruct (decide (reg = NULL)); [done|]. apply NoDup_cons. split; [|done].
      destruct Hreg as [?|Hreg]; [done|]. rewrite Hlive in Hreg.
      by rewrite elem_of_list_to_set in Hreg.
  - destruct (remove_dev_cases d l) as [[Hf Hr]|(e & l1 & l2 & Hf & He & -> & Hr)].
    { rewrite Hr. unfold released. rewrite Hf.
      split; try done. cbn. by rewrite app_nil_r. }
    rewrite Hr. unfold released. rewrite Hf.
    split; cbn [mk_state devs_list_lock led_calls].
    + apply mk_state_is_devs_list.
      * by eapply NoDup_fmap_remove.
      * unfold addrs in *. rewrite fmap_app in *. rewrite fmap_cons in Hnull.
        set_solver.
    + done.
    + by eapply NoDup_fmap_remove.
    + intros x Hx. apply Hn. set_solver.
    + rewrite live_triggers_app. cbn [foldl live_step]. rewrite Hlive.
      rewrite !handles_app, handles_cons in *.
      destruct (decide (e_trig e = NULL)) as [Hz|Hz].
      * rewrite Hz. pose proof (NULL_not_handle l1). pose proof (NULL_not_handle l2).
        set_solver.
      * apply NoDup_app in Hh as (H1 & H2 & H3).
        apply NoDup_cons in H3 as [H3 H4].
        assert (e_trig e ∉ handles l1) by (intros Hin; apply (H2 _ Hin); left).
        set_solver.
    + rewrite !handles_app, handles_cons in *.
      destruct (decide (e_trig e = NULL)) as [Hz|Hz]; [done|].
      apply NoDup_app in Hh as (H1 & H2 & H3).
      apply NoDup_cons in H3 as [H3 H4].
      apply NoDup_app. split_and!; [done| |done].
      intros x Hx Hx'. apply (H2 x Hx). by right.
  - split; try done. cbn [mk_state led_calls].
    by rewrite live_triggers_app, live_fired.
  - split; try done. cbn. by rewrite app_nil_r.
  - split; cbn [mk_state devs_list_lock led_calls].
    + apply mk_state_is_devs_list; [apply NoDup_nil_2|apply not_elem_of_nil].
    + done.
    + apply NoDup_nil_2.
    + intros e He. by apply elem_of_nil in He.
    + rewrite live_triggers_app, live_released_all, Hlive.
      pose proof (handles_subseteq l). set_solver.
    + apply NoDup_nil_2.
Qed.

Lemma reachable_inv s : reachable s → ∃ l, inv s l.
Proof.
  induction 1 as [|c s s' _ [l Hinv] Hc Hex].
  - exists []. apply inv_init.
  - destruct (inv_step c s l Hinv Hc) as (s'' & Hex' & Hinv' & _).
    rewrite Hex in Hex'. injection Hex' as ->. by exists (next_list c l).
Qed.

Lemma run_inv cs : ∀ s l,
  reachable s → inv s l → env_ok cs s →
  ∃ s', run cs s = Ret tt s' ∧ inv s' (next_lists cs l) ∧ reachable s'.
Proof.
  induction cs as [|c cs IH]; intros s l Hr Hinv Hok.
  - by exists s.
  - destruct Hok as [Hc Hok].
    destruct (inv_step c s l Hinv Hc) as (s1 & Hex & Hinv1 & _).
    assert (reachable s1) as Hr1 by by eapply reachable_step.
    destruct (IH s1 (next_list c l) Hr1 Hinv1 (Hok s1 Hex))
      as (s' & Hrun & Hinv' & Hr').
    exists s'. cbn [run]. by rewrite bind_eq, Hex.
Qed.

Lemma devs_remove_dev d l : devs (remove_dev d l) = drop_dev d (devs l).
Proof.
  unfold devs. induction l as [|e l IH]; [done|].
  cbn [remove_dev]. rewrite fmap_cons. cbn [drop_dev].
  destruct (decide (e_dev e = d)); [done|]. by rewrite fmap_cons, IH.
Qed.

Lemma devs_next_list c l :
  devs (next_list c l) = newest_first_step (devs l) c.
Proof.
  destruct c as [a reg d|d|d|buf|]; cbn [next_list newest_first_step]; try done.
  - destruct (decide (a = NULL)); [done|].
    by destruct (decide (d ∈ devs l)).
  - apply devs_remove_dev.
Qed.

Lemma devs_next_lists cs : ∀ l,
  devs (next_lists cs l) = foldl newest_first_step (devs l) cs.
Proof.
  induction cs as [|c cs IH]; intros l; [done|].
  unfold next_lists. cbn [foldl]. fold (next_lists cs (next_list c l)).
  by rewrite IH, devs_next_list.
Qed.

(** ** The scenarios of the specification, run on the model *)

Example scenario_A :
  bind (run [Add 1%N 11%N (MKDEV 8 0); Add 2%N 12%N (MKDEV 8 0)])
    (λ _, ledtrig_dev_devices_show "") init_state
  = Ret (0, "8:0" +:+ LF)
      (mk_state unlocked [sda] [RegisterSimple "dev-8:0" 11%N]
         ["device 8:0 already registered" +:+ LF]).
Proof. vm_compute. reflexivity. Qed.

Example scenario_B :
  bind (run [Add 1%N 11%N (MKDEV 8 0); Add 2%N 12%N (MKDEV 8 16);
             Del (MKDEV 8 0)])
    (λ _, ledtrig_dev_devices_show "") init_state
  = Ret (0, "8:16" +:+ LF)
      (mk_state unlocked [sdb]
         [RegisterSimple "dev-8:0" 11%N; RegisterSimple "dev-8:16" 12%N;
          UnregisterSimple 11%N] []).
Proof. vm_compute. reflexivity. Qed.

Example scenario_C :
  run [Add 1%N 11%N (MKDEV 8 0); Activity (MKDEV 8 0); Activity (MKDEV 9 0)]
    init_state
  = Ret tt
      (mk_state unlocked [sda]
         [RegisterSimple "dev-8:0" 11%N; BlinkOneshot 11%N 30 30 0] []).
Proof. vm_compute. reflexivity. Qed.

Example scenario_D :
  bind (run [Add 1%N 11%N (MKDEV 8 0); Add 2%N 12%N (MKDEV 8 16); RemoveAll])
    (λ _, ledtrig_dev_devices_show "") init_state
  = Ret (0, "")
      (mk_state unlocked []
         [RegisterSimple "dev-8:0" 11%N; RegisterSimple "dev-8:16" 12%N;
          UnregisterSimple 12%N; UnregisterSimple 11%N] []).
Proof. vm_compute. reflexivity. Qed.

(** A list that does not come back to its head: the walk is cut off. *)
Example activity_on_a_broken_list :
  ledtrig_dev_activity (MKDEV 8 0)
    (State unlocked (ListHead (Node 1%N) (Node 1%N))
       {[ 1%N := DevData "dev-8:16" (MKDEV 8 16) 12%N
                   (ListHead (Node 1%N) (Node 1%N)) ]} [] [])
  = Oops.
Proof. vm_compute. reflexivity. Qed.

(** * The claims *)

Lemma add_led_calls_nil s : add_led_calls [] s = s.
Proof. destruct s. unfold add_led_calls. simpl. by rewrite app_nil_r. Qed.

Ltac by_compute := apply (bool_decide_unpack _); vm_compute; exact I.

(** C1.  When the trylock succeeds, [ledtrig_dev_activity d] makes exactly
    one call into the LED core if an entry for [d] is in the list, a
    [led_trigger_blink_oneshot] on the trigger of that entry with both
    delays 30 and invert 0, and changes nothing else; if no entry for [d]
    is in the list it makes no call at all. *)
Theorem C1_activity_fires_once (s : state) (l : list entry) (d : dev_t) :
  is_devs_list s l →
  NoDup (devs l) →
  writer (devs_list_lock s) = false →
  (∀ e, e ∈ l → e_dev e = d →
     ledtrig_dev_activity d s =
     Ret tt (add_led_calls [BlinkOneshot (e_trig e) 30 30 0] s)) ∧
  (d ∉ devs l → ledtrig_dev_activity d s = Ret tt s).
Proof.
  intros Hl Hnd Hw. split.
  - intros e He Hd. rewrite (ledtrig_dev_activity_run d s l Hl Hw).
    unfold fired. by rewrite (find_dev_unique d l e Hnd He Hd).
  - intros Hd. rewrite (ledtrig_dev_activity_run d s l Hl Hw).
    unfold fired. apply find_dev_None in Hd. rewrite Hd.
    by rewrite add_led_calls_nil.
Qed.

Lemma C1_activity_fires_once_witness :
  ledtrig_dev_activity (MKDEV 8 0) (mk_state unlocked [sdb; sda] [] []) =
  Ret tt (mk_state unlocked [sdb; sda] [BlinkOneshot 11%N 30 30 0] []) ∧
  ledtrig_dev_activity (MKDEV 9 0) (mk_state unlocked [sdb; sda] [] []) =
  Ret tt (mk_state unlocked [sdb; sda] [] []).
Proof.
  assert (is_devs_list (mk_state unlocked [sdb; sda] [] []) [sdb; sda]) as Hl.
  { apply mk_state_is_devs_list; by_compute. }
  assert (NoDup (devs [sdb; sda])) as Hnd by by_compute.
  split.
  - apply (proj1 (C1_activity_fires_once _ _ (MKDEV 8 0) Hl Hnd eq_refl) sda);
      [by_compute | reflexivity].
  - apply (proj2 (C1_activity_fires_once _ _ (MKDEV 9 0) Hl Hnd eq_refl)).
    by_compute.
Defined.

(** C9.  While a writer holds [devs_list_lock], [ledtrig_dev_activity]
    returns at once (it does not sleep on the semaphore) and leaves the
    whole state as it was: no call into the LED core, no change of the
    list. *)
Theorem C9_activity_skips_under_writer (s : state) (d : dev_t) :
  writer (devs_list_lock s) = true →
  ledtrig_dev_activity d s = Ret tt s.
Proof. apply ledtrig_dev_activity_locked. Qed.

Lemma C9_activity_skips_under_writer_witness :
  ledtrig_dev_activity (MKDEV 8 0) (mk_state (RwSem true 0) [sda] [] []) =
  Ret tt (mk_state (RwSem true 0) [sda] [] []).
Proof. apply C9_activity_skips_under_writer. reflexivity. Defined.

(** C10.  [ledtrig_dev_activity] and [ledtrig_dev_devices_show] leave the
    registry as it is: the list head, every object in memory (so every
    entry with its device, name and trigger, and the order of the
    entries) and the semaphore are the same after the call.  The first
    always returns; the second returns unless a writer holds the
    semaphore, in which case it sleeps and has changed nothing. *)
Theorem C10_readers_leave_registry (s : state) (l : list entry)
    (d : dev_t) (buf : string) :
  is_devs_list s l →
  (∃ s', ledtrig_dev_activity d s = Ret tt s' ∧
         devs_list s' = devs_list s ∧ mem s' = mem s ∧
         devs_list_lock s' = devs_list_lock s ∧ is_devs_list s' l) ∧
  (if writer (devs_list_lock s)
   then ledtrig_dev_devices_show buf s = Sleeps
   else ∃ out, ledtrig_dev_devices_show buf s = Ret (0, out) s).
Proof.
  intros Hl. split.
  - destruct (writer (devs_list_lock s)) eqn:Hw.
    + exists s. by rewrite ledtrig_dev_activity_locked.
    + eexists. rewrite (ledtrig_dev_activity_run d s l Hl Hw).
      split; [done|]. by destruct s.
  - destruct (writer (devs_list_lock s)) eqn:Hw.
    + by apply ledtrig_dev_devices_show_sleeps.
    + eexists. by apply ledtrig_dev_devices_show_run.
Qed.

Lemma C10_readers_leave_registry_witness :
  let s := mk_state unlocked [sdb; sda] [] [] in
  (∃ s', ledtrig_dev_activity (MKDEV 8 0) s = Ret tt s' ∧
         devs_list s' = devs_list s ∧ mem s' = mem s ∧
         devs_list_lock s' = devs_list_lock s ∧ is_devs_list s' [sdb; sda]) ∧
  (∃ out, ledtrig_dev_devices_show "" s = Ret (0, out) s).
Proof.
  apply (C10_readers_leave_registry (mk_state unlocked [sdb; sda] [] [])
           [sdb; sda] (MKDEV 8 0) "").
  apply mk_state_is_devs_list; by_compute.
Defined.

(** C2.  In every state that the module can reach, whatever calls were
    made, the list holds at most one entry per device; and there a
    [ledtrig_dev_add d] for a device that has an entry returns with the
    list head and all of memory as before (the same entries, the candidate
    freed again) and without a call into the LED core. *)
Theorem C2_one_entry_per_device (s : state) :
  reachable s →
  ∃ l, is_devs_list s l ∧ NoDup (devs l) ∧
       ∀ a reg d,
         allowed (Add a reg d) s → d ∈ devs l →
         ∃ s', ledtrig_dev_add a reg d s = Ret tt s' ∧
               devs_list s' = devs_list s ∧ mem s' = mem s ∧
               led_calls s' = led_calls s ∧ is_devs_list s' l.
Proof.
  intros Hr. destruct (reachable_inv s Hr) as [l Hinv].
  exists l. split_and!; [apply Hinv..|].
  intros a reg d Hc Hd.
  pose proof (exec_run (Add a reg d) s l (inv_list _ _ Hinv)
                (inv_lock _ _ Hinv) Hc) as Hex.
  cbn [exec next_list next_calls next_msgs] in Hex.
  pose proof (inv_list _ _ Hinv) as Hl. pose proof Hl as (Hh & Hm & Hnd & Hnull).
  destruct (decide (a = NULL)); [|destruct (decide (d ∈ devs l)); [|done]];
    (eexists; split; [exact Hex|]); cbn; rewrite app_nil_r; by split_and!.
Qed.

Lemma reachable_sda :
  reachable (mk_state unlocked [sda] [RegisterSimple "dev-8:0" 11%N] []).
Proof.
  apply (reachable_step (Add 1%N 11%N (MKDEV 8 0)) init_state).
  - apply reachable_init.
  - split; right; by_compute.
  - apply (ledtrig_dev_add_new 1%N 11%N (MKDEV 8 0) [] [] []); by_compute.
Defined.

Lemma C2_one_entry_per_device_witness :
  ∃ l, is_devs_list
         (mk_state unlocked [sda] [RegisterSimple "dev-8:0" 11%N] []) l ∧
       NoDup (devs l) ∧
       ∀ a reg d,
         allowed (Add a reg d)
           (mk_state unlocked [sda] [RegisterSimple "dev-8:0" 11%N] []) →
         d ∈ devs l →
         ∃ s', ledtrig_dev_add a reg d
                 (mk_state unlocked [sda] [RegisterSimple "dev-8:0" 11%N] [])
               = Ret tt s' ∧
               devs_list s' = head_of [sda] ∧ mem s' = objs Head [sda] Head ∧
               led_calls s' = [RegisterSimple "dev-8:0" 11%N] ∧
               is_devs_list s' l.
Proof. apply (C2_one_entry_per_device _ reachable_sda). Defined.

(** C7.  [ledtrig_dev_remove_all] returns with an empty list and empty
    memory, and what it asked of the LED core is one
    [led_trigger_unregister_simple] per entry that was in the list, on
    the trigger of that entry, in list order: every entry is visited
    exactly once although the loop unlinks the node it stands on. *)
Theorem C7_remove_all_releases_each_once (s : state) (l : list entry) :
  is_devs_list s l →
  devs_list_lock s = unlocked →
  ∃ s', ledtrig_dev_remove_all s = Ret tt s' ∧
        is_devs_list s' [] ∧
        devs_list s' = LIST_HEAD_INIT ∧ mem s' = ∅ ∧
        led_calls s' =
          led_calls s ++ ((λ e, UnregisterSimple (e_trig e)) <$> l) ∧
        devs_list_lock s' = unlocked ∧ printk s' = printk s.
Proof.
  intros Hl Hk. pose proof Hl as (_ & _ & Hnd & Hnull).
  pose proof (ledtrig_dev_remove_all_run l (led_calls s) (printk s) Hnd Hnull)
    as Hrun.
  rewrite (mk_state_unlocked s l Hl Hk) in Hrun.
  eexists. split; [exact Hrun|]. split_and!; try done.
  apply mk_state_is_devs_list; [apply NoDup_nil_2|apply not_elem_of_nil].
Qed.

Lemma C7_remove_all_releases_each_once_witness :
  ∃ s', ledtrig_dev_remove_all (mk_state unlocked [sdb; sda] [] []) = Ret tt s' ∧
        is_devs_list s' [] ∧
        devs_list s' = LIST_HEAD_INIT ∧ mem s' = ∅ ∧
        led_calls s' = [UnregisterSimple 12%N; UnregisterSimple 11%N] ∧
        devs_list_lock s' = unlocked ∧ printk s' = [].
Proof.
  apply (C7_remove_all_releases_each_once
           (mk_state unlocked [sdb; sda] [] []) [sdb; sda]).
  - apply mk_state_is_devs_list; by_compute.
  - reflexivity.
Defined.

(** C6.  On an empty list [ledtrig_dev_remove_all] changes nothing and
    makes no call into the LED core; and on any list, running it twice
    in a row ends in the very state in which running it once ends. *)
Theorem C6_remove_all_idempotent (s : state) (l : list entry) :
  is_devs_list s l →
  devs_list_lock s = unlocked →
  (l = [] → ledtrig_dev_remove_all s = Ret tt s) ∧
  bind ledtrig_dev_remove_all (λ _, ledtrig_dev_remove_all) s =
  ledtrig_dev_remove_all s.
Proof.
  intros Hl Hk. pose proof Hl as (_ & _ & Hnd & Hnull).
  pose proof (ledtrig_dev_remove_all_run l (led_calls s) (printk s) Hnd Hnull)
    as Hrun.
  pose proof (mk_state_unlocked s l Hl Hk) as Hs. rewrite Hs in Hrun.
  split.
  - intros ->. rewrite Hrun. cbn [released_all fmap list_fmap].
    by rewrite app_nil_r, Hs.
  - rewrite bind_eq, Hrun.
    rewrite ledtrig_dev_remove_all_run
      by (apply NoDup_nil_2 || apply not_elem_of_nil).
    cbn [released_all fmap list_fmap]. by rewrite app_nil_r.
Qed.

Lemma C6_remove_all_idempotent_witness :
  (ledtrig_dev_remove_all init_state = Ret tt init_state) ∧
  bind ledtrig_dev_remove_all (λ _, ledtrig_dev_remove_all)
    (mk_state unlocked [sdb; sda] [] []) =
  ledtrig_dev_remove_all (mk_state unlocked [sdb; sda] [] []).
Proof.
  split.
  - apply (proj1 (C6_remove_all_idempotent init_state [] 
                    (mk_state_is_devs_list unlocked [] [] []
                       (NoDup_nil_2) (not_elem_of_nil _)) eq_refl)).
    reflexivity.
  - apply (C6_remove_all_idempotent (mk_state unlocked [sdb; sda] [] [])
             [sdb; sda]).
    + apply mk_state_is_devs_list; by_compute.
    + reflexivity.
Defined.

Lemma NULL_not_live_from cs : ∀ acc,
  NULL ∉ acc → NULL ∉ foldl live_step acc cs.
Proof.
  induction cs as [|c cs IH]; intros acc Hacc; [done|].
  cbn [foldl]. apply IH. destruct c as [nm t|t|]; cbn [live_step].
  - destruct (decide (t = NULL)); [done|]. set_solver.
  - set_solver.
  - done.
Qed.

Lemma NULL_not_live cs : NULL ∉ live_triggers cs.
Proof. apply NULL_not_live_from. set_solver. Qed.

Lemma net_registrations_app cs cs' :
  net_registrations (cs ++ cs') = foldl net_step (net_registrations cs) cs'.
Proof. unfold net_registrations. by rewrite foldl_app. Qed.

(** C5.  From a state whose list has no entry for [d],
    [ledtrig_dev_add d] followed by [ledtrig_dev_del d] ends in a state
    with the list head, the memory and the semaphore of the start, in
    which [ledtrig_dev_devices_show] prints what it printed at the start;
    the calls of [led_trigger_register_simple] and of
    [led_trigger_unregister_simple] that were made cancel out, and the set
    of registered triggers is the one of the start. *)
Theorem C5_add_del_round_trip (s : state) (l : list entry)
    (a reg : ptr) (d : dev_t) (buf : string) :
  is_devs_list s l →
  devs_list_lock s = unlocked →
  allowed (Add a reg d) s →
  d ∉ devs l →
  ∃ s', bind (ledtrig_dev_add a reg d) (λ _, ledtrig_dev_del d) s = Ret tt s' ∧
        devs_list s' = devs_list s ∧ mem s' = mem s ∧
        devs_list_lock s' = devs_list_lock s ∧
        (∃ out, ledtrig_dev_devices_show buf s = Ret (0, out) s ∧
                ledtrig_dev_devices_show buf s' = Ret (0, out) s') ∧
        net_registrations (led_calls s') = net_registrations (led_calls s) ∧
        live_triggers (led_calls s') = live_triggers (led_calls s).
Proof.
  intros Hl Hk [Ha Hreg] Hd. pose proof Hl as (Hh & Hm & Hnd & Hnull).
  pose proof (mk_state_unlocked s l Hl Hk) as Hs.
  assert (∀ cs, is_devs_list (mk_state unlocked l cs (printk s)) l) as Hl'.
  { intros cs. by apply mk_state_is_devs_list. }
  destruct (decide (a = NULL)) as [->|Hnn].
  - exists s. split.
    { rewrite bind_eq, ledtrig_dev_add_NULL. rewrite <- Hs at 1.
      rewrite ledtrig_dev_del_run by done.
      rewrite remove_dev_None by done.
      unfold released. apply find_dev_None in Hd. rewrite Hd.
      by rewrite app_nil_r, Hs. }
    split_and!; try done.
    exists (buf +:+ lines (devs l)).
    by rewrite (ledtrig_dev_devices_show_run buf s l Hl) by by rewrite Hk.
  - destruct Ha as [?|Ha]; [done|].
    pose proof (is_devs_list_fresh s l a Hl Ha) as Hfr.
    exists (mk_state unlocked l
              (led_calls s ++ [RegisterSimple (dev_name d) reg;
                               UnregisterSimple reg]) (printk s)).
    split.
    { rewrite bind_eq. rewrite <- Hs at 1.
      rewrite ledtrig_dev_add_new by done.
      rewrite ledtrig_dev_del_run; cycle 1.
      - unfold addrs. rewrite fmap_cons. by apply NoDup_cons.
      - unfold addrs. rewrite fmap_cons. apply not_elem_of_cons. by split.
      - cbn [remove_dev e_dev]. rewrite decide_True by done.
        unfold released, find_dev. cbn [find e_dev].
        rewrite bool_decide_eq_true_2 by done. cbn [e_trig].
        by rewrite <- app_assoc. }
    cbn [mk_state devs_list mem devs_list_lock led_calls].
    split_and!; try done.
    + exists (buf +:+ lines (devs l)).
      rewrite (ledtrig_dev_devices_show_run buf s l Hl) by by rewrite Hk.
      by rewrite (ledtrig_dev_devices_show_run buf _ l (Hl' _)).
    + rewrite net_registrations_app. cbn [foldl net_step]. lia.
    + rewrite live_triggers_app. cbn [foldl live_step].
      pose proof (NULL_not_live (led_calls s)).
      destruct (decide (reg = NULL)) as [->|Hr]; [set_solver|].
      destruct Hreg as [?|Hreg]; [done|]. set_solver.
Qed.

Lemma C5_add_del_round_trip_witness :
  let s := mk_state unlocked [sda] [RegisterSimple "dev-8:0" 11%N] [] in
  ∃ s', bind (ledtrig_dev_add 2%N 12%N (MKDEV 8 16))
          (λ _, ledtrig_dev_del (MKDEV 8 16)) s = Ret tt s' ∧
        devs_list s' = devs_list s ∧ mem s' = mem s ∧
        devs_list_lock s' = devs_list_lock s ∧
        (∃ out, ledtrig_dev_devices_show "" s = Ret (0, out) s ∧
                ledtrig_dev_devices_show "" s' = Ret (0, out) s') ∧
        net_registrations (led_calls s') = net_registrations (led_calls s) ∧
        live_triggers (led_calls s') = live_triggers (led_calls s).
Proof.
  apply (C5_add_del_round_trip
           (mk_state unlocked [sda] [RegisterSimple "dev-8:0" 11%N] [])
           [sda] 2%N 12%N (MKDEV 8 16) "").
  - apply mk_state_is_devs_list; by_compute.
  - reflexivity.
  - split; right; by_compute.
  - by_compute.
Defined.

(** C4 as the specification states it fails: after [ledtrig_dev_add] for
    8:0 and then for 8:16, [ledtrig_dev_devices_show] prints 8:16 first,
    which is not insertion order. *)
Lemma C4_counterexample :
  let cs := [Add 1%N 11%N (MKDEV 8 0); Add 2%N 12%N (MKDEV 8 16)] in
  ∃ s out,
    run cs init_state = Ret tt s ∧
    ledtrig_dev_devices_show "" s = Ret (0, out) s ∧
    out = lines [MKDEV 8 16; MKDEV 8 0] ∧
    out ≠ lines (insertion_order cs).
Proof.
  cbv zeta. eexists. eexists.
  split; [vm_compute; reflexivity|].
  split; [vm_compute; reflexivity|].
  split; [vm_compute; reflexivity|].
  vm_compute. discriminate.
Qed.

(** C4, amended.  After any sequence of calls, [ledtrig_dev_devices_show]
    prints one line per entry of the list, in list order, and that order
    is newest first: [list_add] puts a new entry right behind the list
    head, so the device added last is printed first. *)
Theorem C4_show_newest_first (cs : list call) (buf : string) :
  env_ok cs init_state →
  ∃ s, run cs init_state = Ret tt s ∧
       ledtrig_dev_devices_show buf s =
       Ret (0, buf +:+ lines (newest_first cs)) s.
Proof.
  intros Hok.
  destruct (run_inv cs init_state [] reachable_init inv_init Hok)
    as (s & Hrun & Hinv & _).
  exists s. split; [done|].
  rewrite (ledtrig_dev_devices_show_run buf s _ (inv_list _ _ Hinv))
    by by rewrite (inv_lock _ _ Hinv).
  by rewrite devs_next_lists.
Qed.

Lemma C4_show_newest_first_witness :
  ∃ s, run [Add 1%N 11%N (MKDEV 8 0); Add 2%N 12%N (MKDEV 8 16)] init_state
       = Ret tt s ∧
       ledtrig_dev_devices_show "" s =
       Ret (0, lines [MKDEV 8 16; MKDEV 8 0]) s.
Proof.
  apply (C4_show_newest_first
           [Add 1%N 11%N (MKDEV 8 0); Add 2%N 12%N (MKDEV 8 16)] "").
  split; [split; right; by_compute|].
  intros s1 H1. vm_compute in H1. injection H1 as <-.
  split; [split; right; by_compute|].
  intros s2 H2. exact I.
Defined.

Lemma ledtrig_dev_add_halves alloc reg d s :
  ledtrig_dev_add alloc reg d s =
  bind (ledtrig_dev_add_locked alloc d) (ledtrig_dev_add_unlocked reg d) s.
Proof.
  unfold ledtrig_dev_add, ledtrig_dev_add_locked, ledtrig_dev_add_unlocked.
  rewrite !bind_eq.
  destruct (ledtrig_dev_new alloc d s) as [p s1| |]; [|done..].
  destruct (decide (p = NULL)) as [->|Hp]; [done|].
  rewrite !bind_eq. destruct (down_write s1) as [[] s2| |]; [|done..].
  rewrite !bind_eq.
  destruct (list_for_each_entry _ _ _ s2) as [found s3| |]; [|done..].
  rewrite !bind_eq.
  destruct (decide (found = 0)) as [Hf|Hf].
  - destruct (list_add (Node p) Head s3) as [[] s4| |]; [|done..].
    unfold up_write, ret, bind. cbv beta iota. cbn [fst snd].
    rewrite decide_False by done. by rewrite decide_True by done.
  - unfold up_write, ret, bind. cbv beta iota. cbn [fst snd].
    rewrite decide_False by done. by rewrite decide_False by done.
Qed.

Lemma ledtrig_dev_add_locked_new a d l cs msgs :
  NoDup (addrs l) → a ∉ addrs l → a ≠ NULL → d ∉ devs l →
  ledtrig_dev_add_locked a d (mk_state unlocked l cs msgs)
  = Ret (a, 0) (mk_state unlocked (Entry a (dev_name d) d NULL :: l) cs msgs).
Proof.
  intros Hnd Ha Hnull Hd. unfold ledtrig_dev_add_locked.
  rewrite bind_eq, ledtrig_dev_new_run by done.
  rewrite decide_False by done.
  rewrite bind_eq. unfold down_write, mk_state, unlocked. klookup.
  rewrite bind_eq.
  erewrite (list_for_each_entry_scan _ _ l); cycle 1.
  - intros p f s0 [b f'] s' Hb Hf. simpl in Hf. subst b.
    rewrite bind_eq in Hb. unfold load, ret in Hb.
    destruct (mem s0 !! p); [|done]. destruct (decide _); [done|].
    by injection Hb.
  - split_and!; [done| |done]. simpl.
    apply insert_subseteq. by apply lookup_objs_None.
  - rewrite (scan_found d _ l []); cycle 1.
    { split_and!; [done| |done]. simpl.
      apply insert_subseteq. by apply lookup_objs_None. }
    destruct (decide (d ∈ devs l)); [done|]. cbv beta iota.
    rewrite decide_True by done.
    rewrite bind_eq, list_add_run by done.
    unfold mk_state. by kexec.
Qed.

(** C3 as the specification states it fails: when the LED core cannot
    register the trigger (it stores [NULL]), [ledtrig_dev_add] still
    leaves the new entry in the list, with no trigger behind it. *)
Lemma C3_counterexample :
  ∃ s,
    allowed (Add 1%N NULL (MKDEV 8 0)) init_state ∧
    ledtrig_dev_add 1%N NULL (MKDEV 8 0) init_state = Ret tt s ∧
    is_devs_list s [Entry 1%N "dev-8:0" (MKDEV 8 0) NULL] ∧
    live_triggers (led_calls s) = ∅.
Proof.
  eexists. split; [split; [right; by_compute | by left]|].
  split; [vm_compute; reflexivity|].
  split; [split_and!; [reflexivity|reflexivity|by_compute|by_compute]|].
  reflexivity.
Qed.

Lemma ledtrig_dev_add_steps a reg d s :
  a ≠ NULL →
  ledtrig_dev_add a reg d s =
    (at_search ← ledtrig_dev_add_search a d;
     ledtrig_dev_add_link at_search;;
     up_write;;
     ledtrig_dev_add_unlocked reg d at_search) s.
Proof.
  intros Ha.
  unfold ledtrig_dev_add, ledtrig_dev_add_search, ledtrig_dev_add_link,
    ledtrig_dev_add_unlocked.
  rewrite !bind_eq, ledtrig_dev_new_run by done.
  rewrite !decide_False by done.
  rewrite !bind_eq. destruct (down_write _) as [[] s2| |]; [|done..].
  rewrite !bind_eq.
  destruct (list_for_each_entry _ _ _ s2) as [found s3| |]; [|done..].
  change (ret (a, found) s3) with (Ret (a, found) s3).
  cbv beta iota. cbn [fst snd]. rewrite !bind_eq.
  destruct (decide (found = 0)) as [Hf|Hf].
  - destruct (list_add (Node a) Head s3) as [[] s4| |]; [|done..].
    unfold up_write, bind. cbv beta iota.
    by rewrite decide_False by done.
  - unfold up_write, ret, bind. cbv beta iota.
    by rewrite decide_False by done.
Qed.

Lemma ledtrig_dev_add_search_new a d l cs msgs :
  NoDup (addrs l) → a ∉ addrs l → a ≠ NULL → d ∉ devs l →
  ledtrig_dev_add_search a d (mk_state unlocked l cs msgs)
  = Ret (a, 0)
      (State (RwSem true 0) (head_of l)
         (<[a := candidate a d]> (objs Head l Head)) cs msgs).
Proof.
  intros Hnd Ha Hnull Hd. unfold ledtrig_dev_add_search.
  rewrite bind_eq, ledtrig_dev_new_run by done.
  rewrite decide_False by done.
  rewrite bind_eq. unfold down_write, mk_state, unlocked. klookup.
  rewrite bind_eq.
  erewrite (list_for_each_entry_scan _ _ l); cycle 1.
  - intros p f s0 [b f'] s' Hb Hf. simpl in Hf. subst b.
    rewrite bind_eq in Hb. unfold load, ret in Hb.
    destruct (mem s0 !! p); [|done]. destruct (decide _); [done|].
    by injection Hb.
  - split_and!; [done| |done]. simpl.
    apply insert_subseteq. by apply lookup_objs_None.
  - rewrite (scan_found d _ l []); cycle 1.
    { split_and!; [done| |done]. simpl.
      apply insert_subseteq. by apply lookup_objs_None. }
    by destruct (decide (d ∈ devs l)).
Qed.

Lemma ledtrig_dev_add_unlocked_new k a reg d l cs msgs :
  NoDup (addrs l) → a ∉ addrs l → a ≠ NULL →
  ledtrig_dev_add_unlocked reg d (a, 0)
    (mk_state k (Entry a (dev_name d) d NULL :: l) cs msgs)
  = Ret tt
      (mk_state k (Entry a (dev_name d) d reg :: l)
         (cs ++ [RegisterSimple (dev_name d) reg]) msgs).
Proof.
  intros Hnd Ha Hnull. unfold ledtrig_dev_add_unlocked. cbn [fst snd].
  rewrite decide_False by done. rewrite decide_True by done.
  unfold mk_state. kexec. cbn [objs]. klookup.
  do 2 f_equal. kmap.
Qed.

(** C3, amended.  In every state that whole calls lead to, the triggers
    held by the entries of the list are exactly the triggers that are
    registered with the LED core and not yet unregistered, each held by
    one entry; an entry whose registration failed holds [NULL].
    [ledtrig_dev_add] for a new device is the search, the [list_add], the
    [up_write] and the registration, in this order.  The search ends with
    the write lock held and the candidate not in the list; [list_add]
    links it while the write lock is still held; [up_write] frees the
    lock, and up to there the LED core has not been called.
    [led_trigger_register_simple] is called after that, from a state
    whose lock is free, by code that does not look at the lock (it does
    the same whatever the lock is), and the entry stays in the list
    whatever the LED core stores. *)
Theorem C3_linked_then_registered (s : state) :
  reachable s →
  ∃ l, is_devs_list s l ∧
       live_triggers (led_calls s) = list_to_set (handles l) ∧
       NoDup (handles l) ∧
       ∀ a reg d,
         a ≠ NULL → mem s !! a = None → d ∉ devs l →
         ledtrig_dev_add a reg d s =
           (at_search ← ledtrig_dev_add_search a d;
            ledtrig_dev_add_link at_search;;
            up_write;;
            ledtrig_dev_add_unlocked reg d at_search) s ∧
         ∃ searched lnk mid s',
           ledtrig_dev_add_search a d s = Ret (a, 0) searched ∧
           devs_list_lock searched = RwSem true 0 ∧
           linked searched l ∧
           mem searched = <[a := candidate a d]> (mem s) ∧
           led_calls searched = led_calls s ∧
           ledtrig_dev_add_link (a, 0) searched = Ret tt lnk ∧
           devs_list_lock lnk = RwSem true 0 ∧
           is_devs_list lnk (Entry a (dev_name d) d NULL :: l) ∧
           led_calls lnk = led_calls s ∧
           up_write lnk = Ret tt mid ∧
           devs_list_lock mid = unlocked ∧
           ledtrig_dev_add_locked a d s = Ret (a, 0) mid ∧
           is_devs_list mid (Entry a (dev_name d) d NULL :: l) ∧
           led_calls mid = led_calls s ∧
           ledtrig_dev_add_unlocked reg d (a, 0) mid = Ret tt s' ∧
           ledtrig_dev_add a reg d s = Ret tt s' ∧
           devs_list_lock s' = unlocked ∧
           is_devs_list s' (Entry a (dev_name d) d reg :: l) ∧
           led_calls s' = led_calls s ++ [RegisterSimple (dev_name d) reg] ∧
           ∀ k, ledtrig_dev_add_unlocked reg d (a, 0) (set_lock k mid)
                = Ret tt (set_lock k s').
Proof.
  intros Hr. destruct (reachable_inv s Hr) as [l [Hl Hk Hd Hn Hlive Hh]].
  exists l. split_and!; try done.
  intros a reg d Hnn Ha Hni.
  split; [by apply ledtrig_dev_add_steps|].
  pose proof Hl as (Hhead & Hmem & Hnd & Hnull).
  pose proof (is_devs_list_fresh s l a Hl Ha) as Hfr.
  pose proof (mk_state_unlocked s l Hl Hk) as Hs.
  pose proof (ledtrig_dev_add_search_new a d l (led_calls s) (printk s)
                Hnd Hfr Hnn Hni) as Hsearch.
  pose proof (ledtrig_dev_add_locked_new a d l (led_calls s) (printk s)
                Hnd Hfr Hnn Hni) as Hlocked.
  pose proof (ledtrig_dev_add_new a reg d l (led_calls s) (printk s)
                Hnd Hfr Hnn Hni) as Hadd.
  rewrite Hs in Hsearch, Hlocked, Hadd.
  assert (NoDup (addrs (Entry a (dev_name d) d NULL :: l))) as Hnd1.
  { unfold addrs. rewrite fmap_cons. by apply NoDup_cons. }
  assert (NULL ∉ addrs (Entry a (dev_name d) d NULL :: l)) as Hnull1.
  { unfold addrs. rewrite fmap_cons. apply not_elem_of_cons. by split. }
  assert (ledtrig_dev_add_unlocked reg d (a, 0)
            (mk_state unlocked (Entry a (dev_name d) d NULL :: l)
               (led_calls s) (printk s))
          = Ret tt (mk_state unlocked (Entry a (dev_name d) d reg :: l)
                      (led_calls s ++ [RegisterSimple (dev_name d) reg])
                      (printk s))) as Hun.
  { rewrite ledtrig_dev_add_halves, bind_eq, Hlocked in Hadd. exact Hadd. }
  eexists. exists (mk_state (RwSem true 0) (Entry a (dev_name d) d NULL :: l)
                     (led_calls s) (printk s)).
  eexists. eexists.
  split; [exact Hsearch|]. split; [done|].
  split.
  { split_and!; [done| |done]. cbn [mem].
    apply insert_subseteq. by apply lookup_objs_None. }
  split; [cbn [mem]; by rewrite Hmem|]. split; [done|].
  split.
  { unfold ledtrig_dev_add_link. cbn [fst snd].
    rewrite decide_True by done. by rewrite list_add_run. }
  split; [done|].
  split; [by apply mk_state_is_devs_list|]. split; [done|].
  split; [reflexivity|]. split; [done|].
  split; [exact Hlocked|].
  split; [by apply mk_state_is_devs_list|]. split; [done|].
  split; [exact Hun|]. split; [exact Hadd|]. split; [done|].
  split; [by apply mk_state_is_devs_list|]. split; [done|].
  intros k. by apply (ledtrig_dev_add_unlocked_new k).
Qed.

Lemma C3_linked_then_registered_witness :
  let s := mk_state unlocked [sda] [RegisterSimple "dev-8:0" 11%N] [] in
  ∃ l, is_devs_list s l ∧
       live_triggers (led_calls s) = list_to_set (handles l) ∧
       NoDup (handles l) ∧
       ∀ a reg d,
         a ≠ NULL → mem s !! a = None → d ∉ devs l →
         ledtrig_dev_add a reg d s =
           (at_search ← ledtrig_dev_add_search a d;
            ledtrig_dev_add_link at_search;;
            up_write;;
            ledtrig_dev_add_unlocked reg d at_search) s ∧
         ∃ searched lnk mid s',
           ledtrig_dev_add_search a d s = Ret (a, 0) searched ∧
           devs_list_lock searched = RwSem true 0 ∧
           linked searched l ∧
           mem searched = <[a := candidate a d]> (mem s) ∧
           led_calls searched = led_calls s ∧
           ledtrig_dev_add_link (a, 0) searched = Ret tt lnk ∧
           devs_list_lock lnk = RwSem true 0 ∧
           is_devs_list lnk (Entry a (dev_name d) d NULL :: l) ∧
           led_calls lnk = led_calls s ∧
           up_write lnk = Ret tt mid ∧
           devs_list_lock mid = unlocked ∧
           ledtrig_dev_add_locked a d s = Ret (a, 0) mid ∧
           is_devs_list mid (Entry a (dev_name d) d NULL :: l) ∧
           led_calls mid = led_calls s ∧
           ledtrig_dev_add_unlocked reg d (a, 0) mid = Ret tt s' ∧
           ledtrig_dev_add a reg d s = Ret tt s' ∧
           devs_list_lock s' = unlocked ∧
           is_devs_list s' (Entry a (dev_name d) d reg :: l) ∧
           led_calls s' = led_calls s ++ [RegisterSimple (dev_name d) reg] ∧
           ∀ k, ledtrig_dev_add_unlocked reg d (a, 0) (set_lock k mid)
                = Ret tt (set_lock k s').
Proof. apply (C3_linked_then_registered _ reachable_sda). Defined.

(** *** Lemmas on the scan *)

Lemma digit_not_space c : isdigit c → isspace c = false.
Proof. by destruct c as [[] [] [] [] [] [] [] []]. Qed.

Lemma colon_not_digit : isdigit ":"%char = false.
Proof. done. Qed.

Lemma colon_not_space : isspace ":"%char = false.
Proof. done. Qed.

Lemma skip_spaces_app ws r :
  Forall isspace ws → no_space_ahead r → skip_spaces (ws ++ r) = r.
Proof.
  induction 1 as [|c ws Hc _ IH]; intros Hr.
  - destruct r as [|c r]; [done|]. simpl in *. by rewrite Hr.
  - simpl. destruct (isspace c); [by apply IH|done].
Qed.

Lemma skip_spaces_decomp s :
  ∃ ws, s = ws ++ skip_spaces s ∧ Forall isspace ws.
Proof.
  induction s as [|c s (ws & Hs & Hws)].
  - by exists [].
  - simpl. destruct (isspace c) eqn:Hc.
    + exists (c :: ws). split; [simpl; by f_equal|].
      constructor; [by rewrite Hc|done].
    + by exists [].
Qed.

Lemma simple_strtoul_app ds r : ∀ acc,
  Forall isdigit ds → no_digit_ahead r →
  simple_strtoul (ds ++ r) acc =
  (foldl (λ acc c, acc * 10 + digit_val c) acc ds, r).
Proof.
  induction ds as [|c ds IH]; intros acc Hds Hr.
  - destruct r as [|c r]; [done|]. simpl in *. by rewrite Hr.
  - apply Forall_cons in Hds as [Hc Hds]. simpl.
    destruct (isdigit c); [by apply IH|done].
Qed.

Lemma simple_strtoul_decomp s : ∀ acc,
  ∃ ds, s = ds ++ (simple_strtoul s acc).2 ∧ Forall isdigit ds ∧
        (simple_strtoul s acc).1 = foldl (λ acc c, acc * 10 + digit_val c) acc ds ∧
        no_digit_ahead (simple_strtoul s acc).2.
Proof.
  induction s as [|c s IH]; intros acc.
  - by exists [].
  - simpl. destruct (isdigit c) eqn:Hc.
    + destruct (IH (acc * 10 + digit_val c)) as (ds & Hs & Hds & Hv & Hr).
      exists (c :: ds). split_and!; [simpl; by f_equal| |done..].
      constructor; [by rewrite Hc|done].
    + exists []. by split_and!.
Qed.

Lemma sscanf_major_minor text :
  sscanf text "%u:%u" = scan_major_minor text.
Proof.
  unfold sscanf, scan_major_minor. cbn [String.list_ascii_of_string vsscanf].
  rewrite !decide_True by done. rewrite decide_False by done.
  destruct text as [|c text]; [done|].
  destruct (skip_spaces (c :: text)) as [|d s1]; [done|].
  destruct (isdigit d); [|done]. cbv zeta. f_equal.
  destruct (simple_strtoul (d :: s1) 0).2 as [|c' s2]; [done|].
  destruct (decide (":"%char = c')); [|done].
  rewrite !decide_True by done.
  destruct s2 as [|c2 s2]; [done|].
  destruct (skip_spaces (c2 :: s2)) as [|d2 s3]; [done|].
  by destruct (isdigit d2).
Qed.

Lemma scan_major_minor_length text : (length (scan_major_minor text) ≤ 2)%nat.
Proof.
  unfold scan_major_minor. destruct text as [|c text]; [simpl; lia|].
  destruct (skip_spaces (c :: text)) as [|d s1]; [simpl; lia|].
  destruct (isdigit d); [|simpl; lia]. cbv zeta.
  destruct (simple_strtoul (d :: s1) 0).2 as [|c' s2]; [simpl; lia|].
  destruct (decide (":"%char = c')); [|simpl; lia].
  destruct s2 as [|c2 s2]; [simpl; lia|].
  destruct (skip_spaces (c2 :: s2)) as [|d2 s3]; [simpl; lia|].
  destruct (isdigit d2); simpl; lia.
Qed.

Lemma scan_major_minor_accepts text ma mi :
  begins_with_major_minor text ma mi → scan_major_minor text = [ma; mi].
Proof.
  intros (ws1 & ds1 & ws2 & ds2 & rest & -> & Hws1 & Hds1 & Hne1 & Hws2 &
          Hds2 & Hne2 & Hrest & -> & ->).
  destruct ds1 as [|d1 ds1]; [done|]. destruct ds2 as [|d2 ds2]; [done|].
  pose proof (Forall_inv Hds1) as Hd1. pose proof (Forall_inv Hds2) as Hd2.
  unfold scan_major_minor.
  destruct (ws1 ++ (d1 :: ds1) ++ ":"%char :: ws2 ++ (d2 :: ds2) ++ rest)
    as [|c0 t0] eqn:Htext.
  { by destruct ws1. }
  rewrite <- Htext. clear Htext.
  rewrite skip_spaces_app by (done || by apply digit_not_space).
  cbn [app]. rewrite (Is_true_eq_true _ Hd1).
  change (d1 :: ds1 ++ ":"%char :: ws2 ++ d2 :: ds2 ++ rest)
    with ((d1 :: ds1) ++ ":"%char :: ws2 ++ (d2 :: ds2) ++ rest).
  rewrite simple_strtoul_app by done. cbn [fst snd].
  rewrite decide_True by done.
  destruct (ws2 ++ (d2 :: ds2) ++ rest) as [|c1 t1] eqn:Htext.
  { by destruct ws2. }
  rewrite <- Htext. clear Htext.
  rewrite skip_spaces_app by (done || by apply digit_not_space).
  cbn [app]. rewrite (Is_true_eq_true _ Hd2).
  change (d2 :: ds2 ++ rest) with ((d2 :: ds2) ++ rest).
  by rewrite simple_strtoul_app by done.
Qed.

Lemma scan_major_minor_accepted text v1 v2 l :
  scan_major_minor text = v1 :: v2 :: l →
  l = [] ∧ begins_with_major_minor text v1 v2.
Proof.
  unfold scan_major_minor. destruct text as [|c text]; [done|].
  destruct (skip_spaces_decomp (c :: text)) as (ws1 & Ht & Hws1).
  destruct (skip_spaces (c :: text)) as [|d s1]; [done|].
  destruct (isdigit d) eqn:Hd; [|done]. cbv zeta.
  destruct (simple_strtoul_decomp (d :: s1) 0) as (ds1 & Hs1 & Hds1 & Hv1 & Hr1).
  destruct (simple_strtoul (d :: s1) 0) as [val1 r1]. cbn [fst snd] in *.
  destruct r1 as [|c' s2]; [done|].
  destruct (decide (":"%char = c')) as [<-|]; [|done].
  destruct s2 as [|c2 s2]; [done|].
  destruct (skip_spaces_decomp (c2 :: s2)) as (ws2 & Ht2 & Hws2).
  destruct (skip_spaces (c2 :: s2)) as [|d2 s3]; [done|].
  destruct (isdigit d2) eqn:Hd2; [|done].
  destruct (simple_strtoul_decomp (d2 :: s3) 0) as (ds2 & Hs3 & Hds2 & Hv2 & Hr2).
  destruct (simple_strtoul (d2 :: s3) 0) as [val2 rest]. cbn [fst snd] in *.
  intros [= <- <- <-]. split; [done|].
  exists ws1, ds1, ws2, ds2, rest. split_and!; try done.
  - by rewrite Ht, Hs1, Ht2, Hs3.
  - intros ->. simpl in Hs1. injection Hs1 as -> _. done.
  - intros ->. simpl in Hs3. subst rest. simpl in Hr2. congruence.
  - by rewrite Hv1.
  - by rewrite Hv2.
Qed.

Lemma scan_major_minor_rejects text :
  (¬ ∃ ma mi, begins_with_major_minor text ma mi) →
  (length (scan_major_minor text) < 2)%nat.
Proof.
  intros Hno. destruct (scan_major_minor text) as [|v1 [|v2 l]] eqn:Hs;
    [simpl; lia..|].
  destruct Hno. exists v1, v2. by apply (scan_major_minor_accepted _ _ _ l).
Qed.

Lemma MKDEV_MAJOR_MINOR ma mi :
  0 ≤ ma < 2 ^ 12 → 0 ≤ mi < 2 ^ 20 →
  MAJOR (MKDEV ma mi) = ma ∧ MINOR (MKDEV ma mi) = mi.
Proof.
  intros Hma Hmi. unfold MAJOR, MINOR, MKDEV, MINORMASK, MINORBITS, u32.
  assert (Z.land (Z.shiftl ma 20) mi = 0) as Hland.
  { apply Z.bits_inj'. intros n Hn. rewrite Z.land_spec, Z.bits_0.
    destruct (decide (n < 20)).
    - rewrite Z.shiftl_spec_low by lia. done.
    - rewrite (Z.bits_above_log2 mi n); [by rewrite andb_false_r|lia|].
      destruct (decide (mi = 0)) as [->|]; [simpl; lia|].
      assert (Z.log2 mi < 20) by (apply Z.log2_lt_pow2; lia). lia. }
  rewrite <- Z.lxor_lor, <- Z.add_nocarry_lxor by done.
  rewrite Z.shiftl_mul_pow2 by lia.
  rewrite Z.mod_small by lia.
  rewrite Z.shiftr_div_pow2 by lia.
  change (Z.shiftl 1 20 - 1) with (Z.ones 20). rewrite Z.land_ones by lia.
  split.
  - rewrite Z.add_comm, Z.div_add by lia. rewrite Z.div_small by lia. lia.
  - rewrite Z.add_comm, Z.mod_add by lia. apply Z.mod_small. lia.
Qed.

Lemma u32_range z : 0 ≤ u32 z < 2 ^ 32.
Proof. unfold u32. apply Z.mod_pos_bound. lia. Qed.

Lemma get_dev_from_user_run buf size stack dev0 s :
  get_dev_from_user buf size stack (Some dev0) s =
  Ret (if decide (0 < size ≤ 20 ∧ size ≤ Z.of_nat (length buf) ∨ size < 0)
       then
         match
           scan_major_minor
             (c_str (take (Z.to_nat size) buf ++ drop (Z.to_nat size) stack))
         with
         | [ma; mi] => (0, Some (MKDEV ma mi))
         | _ => (- EINVAL, Some dev0)
         end
       else (- EINVAL, Some dev0)) s.
Proof.
  unfold get_dev_from_user. rewrite bind_eq.
  rewrite bool_decide_eq_false_2 by done. cbn [WARN_ON]. unfold ret at 1.
  rewrite decide_False by done.
  unfold copy_from_user, MAX_NAME_LEN. cbv zeta.
  rewrite sscanf_major_minor.
  pose proof (scan_major_minor_length
                (c_str (take (Z.to_nat size) buf ++ drop (Z.to_nat size) stack)))
    as Hlen.
  destruct (decide (0 < size ≤ 20 ∧ size ≤ Z.of_nat (length buf) ∨ size < 0))
    as [Hok|Hno].
  - rewrite decide_False by lia.
    assert ((size <=? Z.of_nat (length buf)) = true) as -> by (apply Z.leb_le; lia).
    rewrite decide_False by (intros H0; by apply H0).
    destruct (scan_major_minor _) as [|v1 [|v2 [|v3 l]]]; simpl in Hlen |- *;
      try done; lia.
  - destruct (decide (size > Z.of_nat 20 ∨ size = 0)) as [Hs|Hs]; [done|].
    assert ((size <=? Z.of_nat (length buf)) = false) as -> by (apply Z.leb_gt; lia).
    by rewrite decide_True by lia.
Qed.

Lemma write_rejected buf size stack dev0 s :
  get_dev_from_user buf size stack (Some dev0) s = Ret (- EINVAL, Some dev0) s →
  (∀ alloc reg,
     ledtrig_dev_register_write alloc reg buf size stack dev0 s
     = Ret (- EINVAL) s) ∧
  ledtrig_dev_unregister_write buf size stack dev0 s = Ret (- EINVAL) s ∧
  ledtrig_dev_trigger_write buf size stack dev0 s = Ret (- EINVAL) s.
Proof.
  intros H. unfold ledtrig_dev_register_write, ledtrig_dev_unregister_write,
    ledtrig_dev_trigger_write.
  split_and!; [intros alloc reg|..]; by rewrite bind_eq, H.
Qed.

Lemma write_accepted buf size stack dev0 s d :
  0 ≤ size →
  get_dev_from_user buf size stack (Some dev0) s = Ret (0, Some d) s →
  (∀ alloc reg,
     ledtrig_dev_register_write alloc reg buf size stack dev0 s
     = bind (ledtrig_dev_add alloc reg d) (λ _, ret size) s) ∧
  ledtrig_dev_unregister_write buf size stack dev0 s
  = bind (ledtrig_dev_del d) (λ _, ret size) s ∧
  ledtrig_dev_trigger_write buf size stack dev0 s
  = bind (ledtrig_dev_activity d) (λ _, ret size) s.
Proof.
  intros Hsz H. unfold ledtrig_dev_register_write, ledtrig_dev_unregister_write,
    ledtrig_dev_trigger_write.
  split_and!; [intros alloc reg|..]; by rewrite bind_eq, H.
Qed.

Lemma c_str_app pre r :
  Forall (λ c, c ≠ NUL) pre → c_str (pre ++ r) = pre ++ c_str r.
Proof.
  induction 1 as [|c pre Hc _ IH]; [done|].
  cbn. rewrite decide_False by done. by rewrite IH.
Qed.

Lemma space_not_NUL ws : Forall isspace ws → Forall (λ c, c ≠ NUL) ws.
Proof. intros H. eapply Forall_impl; [exact H|]. by intros c Hc ->. Qed.

Lemma digit_not_NUL ds : Forall isdigit ds → Forall (λ c, c ≠ NUL) ds.
Proof. intros H. eapply Forall_impl; [exact H|]. by intros c Hc ->. Qed.

Lemma c_str_no_digit_ahead c r : isdigit c = false → no_digit_ahead (c_str (c :: r)).
Proof. intros Hc. cbn. destruct (decide (c = NUL)); [done|]. done. Qed.

Lemma get_dev_from_user_delimited buf size stack dev0 s ws1 ds1 ws2 ds2 c rest :
  0 < size ≤ 20 → size ≤ Z.of_nat (length buf) →
  take (Z.to_nat size) buf = ws1 ++ ds1 ++ ":"%char :: ws2 ++ ds2 ++ c :: rest →
  Forall isspace ws1 → Forall isdigit ds1 → ds1 ≠ [] →
  Forall isspace ws2 → Forall isdigit ds2 → ds2 ≠ [] →
  isdigit c = false →
  get_dev_from_user buf size stack (Some dev0) s
  = Ret (0, Some (MKDEV (u32 (decimal ds1)) (u32 (decimal ds2)))) s.
Proof.
  intros Hsz Hlen Htake Hws1 Hds1 Hn1 Hws2 Hds2 Hn2 Hc.
  rewrite get_dev_from_user_run. rewrite decide_True by by left.
  rewrite Htake.
  replace ((ws1 ++ ds1 ++ ":"%char :: ws2 ++ ds2 ++ c :: rest) ++
           drop (Z.to_nat size) stack)
    with ((ws1 ++ ds1 ++ ":"%char :: ws2 ++ ds2) ++
          c :: rest ++ drop (Z.to_nat size) stack)
    by (by rewrite <- !app_assoc; cbn; rewrite <- !app_assoc).
  rewrite c_str_app; cycle 1.
  { apply Forall_app. split; [by apply space_not_NUL|].
    apply Forall_app. split; [by apply digit_not_NUL|].
    constructor; [done|].
    apply Forall_app. split; [by apply space_not_NUL|by apply digit_not_NUL]. }
  rewrite (scan_major_minor_accepts _ (u32 (decimal ds1)) (u32 (decimal ds2)));
    [done|].
  exists ws1, ds1, ws2, ds2, (c_str (c :: rest ++ drop (Z.to_nat size) stack)).
  split_and!; try done.
  - by rewrite <- !app_assoc; cbn; rewrite <- !app_assoc.
  - by apply c_str_no_digit_ahead.
Qed.

Lemma c_str_split w tail pat rest :
  Forall (λ c, c ≠ NUL) pat →
  c_str (w ++ tail) = pat ++ rest →
  (∃ x, pat = w ++ x) ∨
  (∃ c w', w = pat ++ c :: w' ∧ rest = c_str (c :: w' ++ tail)).
Proof.
  intros Hpat. revert w. induction Hpat as [|p pat Hp _ IH]; intros w Heq.
  - destruct w as [|c w]; [left; by exists []|].
    right. exists c, w. by split.
  - destruct w as [|c w]; [left; by eexists|].
    cbn in Heq. destruct (decide (c = NUL)); [done|].
    injection Heq as -> Heq.
    destruct (IH w Heq) as [[x ->]|(c & w' & -> & ->)].
    + left. by exists x.
    + right. by exists c, w'.
Qed.

Lemma major_minor_text_no_NUL pat ma mi :
  major_minor_text pat ma mi → Forall (λ c, c ≠ NUL) pat.
Proof.
  intros (ws1 & ds1 & ws2 & ds2 & -> & Hws1 & Hds1 & _ & Hws2 & Hds2 & _).
  apply Forall_app. split; [by apply space_not_NUL|].
  apply Forall_app. split; [by apply digit_not_NUL|].
  constructor; [done|].
  apply Forall_app. split; [by apply space_not_NUL|by apply digit_not_NUL].
Qed.

Lemma major_minor_text_first c s ma mi :
  major_minor_text (c :: s) ma mi → isspace c ∨ isdigit c.
Proof.
  intros (ws1 & ds1 & ws2 & ds2 & Heq & Hws1 & Hds1 & Hne & _).
  destruct ws1 as [|w ws1].
  - destruct ds1 as [|d ds1]; [done|]. injection Heq as -> _.
    right. by apply Forall_inv in Hds1.
  - injection Heq as -> _. left. by apply Forall_inv in Hws1.
Qed.

Lemma get_dev_from_user_accepts buf size stack dev0 s ma mi :
  0 < size ≤ 20 → size ≤ Z.of_nat (length buf) →
  delimited_major_minor (take (Z.to_nat size) buf) ma mi →
  get_dev_from_user buf size stack (Some dev0) s
  = Ret (0, Some (MKDEV ma mi)) s.
Proof.
  intros Hsz Hlen (pat & c & rest & Hw &
    (ws1 & ds1 & ws2 & ds2 & -> & Hws1 & Hds1 & Hn1 & Hws2 & Hds2 & Hn2 &
     -> & ->) & Hc).
  apply (get_dev_from_user_delimited _ _ _ _ _ ws1 ds1 ws2 ds2 c rest);
    try done.
  rewrite Hw. by rewrite <- !app_assoc; cbn; rewrite <- !app_assoc.
Qed.

Lemma get_dev_from_user_refuses buf size stack dev0 s :
  0 < size ≤ 20 → size ≤ Z.of_nat (length buf) →
  ¬ cut_short (take (Z.to_nat size) buf) →
  (¬ ∃ ma mi, delimited_major_minor (take (Z.to_nat size) buf) ma mi) →
  get_dev_from_user buf size stack (Some dev0) s
  = Ret (- EINVAL, Some dev0) s.
Proof.
  intros Hsz Hlen Hcut Hno.
  rewrite get_dev_from_user_run. rewrite decide_True by by left.
  set (w := take (Z.to_nat size) buf) in *.
  set (tail := drop (Z.to_nat size) stack).
  pose proof (scan_major_minor_length (c_str (w ++ tail))) as Hlen2.
  destruct (scan_major_minor (c_str (w ++ tail))) as [|v1 [|v2 [|v3 l]]] eqn:Hs;
    [done|done| |simpl in Hlen2; lia].
  exfalso.
  apply scan_major_minor_accepted in Hs as [_ Hpat].
  destruct Hpat as (ws1 & ds1 & ws2 & ds2 & rest & Heq & Hws1 & Hds1 & Hn1 &
                    Hws2 & Hds2 & Hn2 & Hrest & Hv1 & Hv2).
  assert (major_minor_text (ws1 ++ ds1 ++ ":"%char :: ws2 ++ ds2) v1 v2)
    as Htext.
  { exists ws1, ds1, ws2, ds2. by split_and!. }
  replace (ws1 ++ ds1 ++ ":"%char :: ws2 ++ ds2 ++ rest)
    with ((ws1 ++ ds1 ++ ":"%char :: ws2 ++ ds2) ++ rest) in Heq
    by (by rewrite <- !app_assoc; cbn; rewrite <- !app_assoc).
  destruct (c_str_split w tail _ rest (major_minor_text_no_NUL _ _ _ Htext) Heq)
    as [[x Hx]|(c & w' & Hw & Hr)].
  - apply Hcut. exists x, v1, v2. by rewrite <- Hx.
  - apply Hno. exists v1, v2, (ws1 ++ ds1 ++ ":"%char :: ws2 ++ ds2), c, w'.
    split_and!; [done..|].
    rewrite Hr in Hrest. cbn in Hrest.
    destruct (decide (c = NUL)) as [->|]; [done|exact Hrest].
Qed.

Lemma is_major_minor_last s ma mi :
  is_major_minor s ma mi → ∃ c, last s = Some c ∧ isdigit c.
Proof.
  intros (ds1 & ds2 & -> & _ & _ & Hds2 & Hne & _).
  destruct (last ds2) as [c|] eqn:Hlast; [|by apply last_None in Hlast].
  exists c. split; [by rewrite last_app, last_cons, Hlast|].
  apply last_Some_elem_of in Hlast.
  rewrite Forall_forall in Hds2. by apply Hds2.
Qed.

(** C8 as the specification states it fails in both directions: a text
    of the form ["<major>:<minor>"] that is longer than the 20 bytes of
    [temp] is rejected; a text with something behind the minor number,
    such as the line feed that [echo] appends, is accepted, and so is one
    with white space before the numbers. *)
Lemma C8_counterexample :
  (is_major_minor (String.list_ascii_of_string "4294967295:4294967295")
     4294967295 4294967295 ∧
   ∀ stack,
     get_dev_from_user (String.list_ascii_of_string "4294967295:4294967295")
       21 stack (Some 0) init_state
     = Ret (- EINVAL, Some 0) init_state) ∧
  ((¬ ∃ ma mi,
       is_major_minor (String.list_ascii_of_string ("8:0" +:+ LF)) ma mi) ∧
   ∀ stack,
     get_dev_from_user (String.list_ascii_of_string ("8:0" +:+ LF))
       4 stack (Some 0) init_state
     = Ret (0, Some (MKDEV 8 0)) init_state) ∧
  ((¬ ∃ ma mi,
       is_major_minor (String.list_ascii_of_string (" 8: 0" +:+ LF)) ma mi) ∧
   ∀ stack,
     get_dev_from_user (String.list_ascii_of_string (" 8: 0" +:+ LF))
       6 stack (Some 0) init_state
     = Ret (0, Some (MKDEV 8 0)) init_state).
Proof.
  split_and!.
  - exists (String.list_ascii_of_string "4294967295"),
      (String.list_ascii_of_string "4294967295").
    split_and!; try done; by repeat constructor.
  - intros stack. rewrite get_dev_from_user_run.
    by rewrite decide_False by (simpl; lia).
  - intros (ma & mi & Hpat).
    apply is_major_minor_last in Hpat as (c & Hl & Hc).
    cbn in Hl. by injection Hl as <-.
  - intros stack.
    apply (get_dev_from_user_delimited _ _ _ _ _
             [] (String.list_ascii_of_string "8") []
             (String.list_ascii_of_string "0") (Ascii.ascii_of_nat 10) []);
      try done; by repeat constructor.
  - intros (ma & mi & Hpat).
    apply is_major_minor_last in Hpat as (c & Hl & Hc).
    cbn in Hl. by injection Hl as <-.
  - intros stack.
    apply (get_dev_from_user_delimited _ _ _ _ _
             (String.list_ascii_of_string " ")
             (String.list_ascii_of_string "8")
             (String.list_ascii_of_string " ")
             (String.list_ascii_of_string "0") (Ascii.ascii_of_nat 10) []);
      try done; by repeat constructor.
Qed.

(** C8, amended.  [get_dev_from_user] refuses every text of no bytes, of
    more than 20 bytes, or that cannot be read in full.  Of a text of 1 to
    20 bytes it accepts the one that begins, after optional white space,
    with a decimal number, a colon, optional white space and a second
    decimal number, and has a byte that is no digit behind that number,
    whatever else follows; it then stores [MKDEV(major, minor)] of the two
    numbers taken as [unsigned int], which is the device [major:minor]
    when [major] fits in 12 bits and [minor] in 20, and the write handler
    passes that device to the registry.  It refuses the text whose bytes
    neither hold such a beginning nor end where one could still go on.
    Where it refuses it returns [-EINVAL], stores nothing, and the three
    write handlers return that error without a call into the registry.
    All of this holds whatever the stack held where [temp] is placed.
    Nothing is said of a text that ends where the pattern could go on
    (the three bytes ["8:1"], say). *)
Theorem C8_text_to_dev (buf stack : list ascii) (size : Z) (dev0 : dev_t)
    (s : state) :
  0 ≤ size →
  let written := take (Z.to_nat size) buf in
  let fits := 0 < size ≤ 20 ∧ size ≤ Z.of_nat (length buf) in
  (∀ ma mi,
     fits → delimited_major_minor written ma mi →
     get_dev_from_user buf size stack (Some dev0) s
     = Ret (0, Some (MKDEV ma mi)) s ∧
     (ma < 2 ^ 12 → mi < 2 ^ 20 →
      MAJOR (MKDEV ma mi) = ma ∧ MINOR (MKDEV ma mi) = mi) ∧
     (∀ alloc reg,
        ledtrig_dev_register_write alloc reg buf size stack dev0 s
        = bind (ledtrig_dev_add alloc reg (MKDEV ma mi)) (λ _, ret size) s) ∧
     ledtrig_dev_unregister_write buf size stack dev0 s
     = bind (ledtrig_dev_del (MKDEV ma mi)) (λ _, ret size) s ∧
     ledtrig_dev_trigger_write buf size stack dev0 s
     = bind (ledtrig_dev_activity (MKDEV ma mi)) (λ _, ret size) s) ∧
  (¬ fits ∨
   (¬ cut_short written ∧ ¬ ∃ ma mi, delimited_major_minor written ma mi) →
   get_dev_from_user buf size stack (Some dev0) s
   = Ret (- EINVAL, Some dev0) s ∧
   (∀ alloc reg,
      ledtrig_dev_register_write alloc reg buf size stack dev0 s
      = Ret (- EINVAL) s) ∧
   ledtrig_dev_unregister_write buf size stack dev0 s = Ret (- EINVAL) s ∧
   ledtrig_dev_trigger_write buf size stack dev0 s = Ret (- EINVAL) s).
Proof.
  intros Hsz written fits. split.
  - intros ma mi [Hfits Hlen] Hpat.
    assert (get_dev_from_user buf size stack (Some dev0) s
            = Ret (0, Some (MKDEV ma mi)) s) as Hrun
      by by apply get_dev_from_user_accepts.
    split; [done|]. split; [|by apply write_accepted].
    intros Hma Hmi.
    destruct Hpat as (? & ? & ? & _ &
                      (? & ? & ? & ? & _ & _ & _ & _ & _ & _ & _ & -> & ->) & _).
    apply MKDEV_MAJOR_MINOR; split; (apply u32_range || done).
  - intros Hno.
    assert (get_dev_from_user buf size stack (Some dev0) s
            = Ret (- EINVAL, Some dev0) s) as Hrun.
    { destruct (decide fits) as [[Hfits Hlen]|Hnf].
      - destruct Hno as [Hnf|[Hcut Hnd]]; [by destruct Hnf|].
        by apply get_dev_from_user_refuses.
      - rewrite get_dev_from_user_run.
        rewrite decide_False; [done|]. unfold fits in Hnf. lia. }
    split; [done|]. by apply write_rejected.
Qed.

Lemma C8_text_to_dev_witness :
  (∀ stack,
     get_dev_from_user (String.list_ascii_of_string ("8:16" +:+ LF)) 5 stack
       (Some 0) init_state
     = Ret (0, Some (MKDEV 8 16)) init_state) ∧
  (∀ stack,
     get_dev_from_user (String.list_ascii_of_string "sda") 3 stack
       (Some 0) init_state
     = Ret (- EINVAL, Some 0) init_state).
Proof.
  split; intros stack.
  - apply (C8_text_to_dev (String.list_ascii_of_string ("8:16" +:+ LF)) stack
             5 0 init_state); [lia| |].
    + vm_compute. split; [split|]; congruence.
    + exists (String.list_ascii_of_string "8:16"), (Ascii.ascii_of_nat 10), [].
      split_and!; [done| |done].
      exists [], (String.list_ascii_of_string "8"), [],
        (String.list_ascii_of_string "16").
      split_and!; try done; by repeat constructor.
  - apply (C8_text_to_dev (String.list_ascii_of_string "sda") stack 3 0
             init_state); [lia|].
    right. split.
    + intros (more & ma & mi & Hpat).
      by destruct (major_minor_text_first _ _ _ _ Hpat).
    + intros (ma & mi & pat & c & rest & Hw & Hpat & _).
      destruct pat as [|p pat].
      * destruct Hpat as (ws1 & ds1 & ? & ? & Heq & _). by destruct ws1, ds1.
      * injection Hw as <- _.
        by destruct (major_minor_text_first _ _ _ _ Hpat).
Defined.


(** * Further properties of the driver *)

(** ** [ledtrig_dev_del] *)

Lemma remove_dev_app d l1 e l2 :
  d ∉ devs l1 → e_dev e = d →
  remove_dev d (l1 ++ e :: l2) = l1 ++ l2 ∧
  find_dev d (l1 ++ e :: l2) = Some e.
Proof.
  unfold devs, find_dev. induction l1 as [|x l1 IH]; intros Hd He.
  - cbn. rewrite decide_True by done. by rewrite bool_decide_eq_true_2.
  - rewrite fmap_cons in Hd. apply not_elem_of_cons in Hd as [Hx Hd].
    destruct (IH Hd He) as [IH1 IH2]. cbn [app remove_dev find].
    rewrite decide_False by done. rewrite bool_decide_eq_false_2 by done.
    by rewrite IH1, IH2.
Qed.

Lemma remove_dev_not_elem d l : NoDup (devs l) → d ∉ devs (remove_dev d l).
Proof.
  unfold devs. induction l as [|e l IH]; intros Hnd.
  - apply not_elem_of_nil.
  - rewrite fmap_cons in Hnd. apply NoDup_cons in Hnd as [Hni Hnd].
    cbn [remove_dev]. destruct (decide (e_dev e = d)) as [<-|Hne]; [done|].
    rewrite fmap_cons. apply not_elem_of_cons. split; [done|by apply IH].
Qed.

Lemma remove_dev_wf d l :
  NoDup (addrs l) → NULL ∉ addrs l →
  NoDup (addrs (remove_dev d l)) ∧ NULL ∉ addrs (remove_dev d l).
Proof.
  intros Hnd Hnull.
  destruct (remove_dev_cases d l) as [[_ ->]|(e & l1 & l2 & _ & _ & -> & ->)];
    [done|].
  split; [by eapply NoDup_fmap_remove|].
  unfold addrs in *. rewrite fmap_app in *. rewrite fmap_cons in Hnull.
  set_solver.
Qed.

Lemma ledtrig_dev_del_missing s l d :
  is_devs_list s l → devs_list_lock s = unlocked → d ∉ devs l →
  ledtrig_dev_del d s = Ret tt s.
Proof.
  intros Hl Hk Hd. pose proof Hl as (_ & _ & Hnd & Hnull).
  pose proof (ledtrig_dev_del_run d l (led_calls s) (printk s) Hnd Hnull) as H.
  rewrite (mk_state_unlocked s l Hl Hk) in H. rewrite H.
  rewrite remove_dev_None by done. unfold released.
  apply find_dev_None in Hd. rewrite Hd, app_nil_r.
  by rewrite (mk_state_unlocked s l Hl Hk).
Qed.

(** X1.  [ledtrig_dev_del] for a device that has no entry walks the whole
    list and returns with the state as it found it: nothing is unlinked,
    nothing is freed, the LED core is not called. *)
Theorem X1_del_missing_is_noop (s : state) (l : list entry) (d : dev_t) :
  is_devs_list s l →
  devs_list_lock s = unlocked →
  d ∉ devs l →
  ledtrig_dev_del d s = Ret tt s.
Proof. apply ledtrig_dev_del_missing. Qed.

Lemma X1_del_missing_is_noop_witness :
  ledtrig_dev_del (MKDEV 9 0) (mk_state unlocked [sdb; sda] [] []) =
  Ret tt (mk_state unlocked [sdb; sda] [] []).
Proof.
  apply (X1_del_missing_is_noop _ [sdb; sda]).
  - apply mk_state_is_devs_list; by_compute.
  - reflexivity.
  - by_compute.
Defined.

(** X2.  [ledtrig_dev_del] for a device that has an entry unlinks the
    first such entry and nothing else: the entries before it and behind
    it stay, in their order and with their fields; the object is freed,
    and the LED core is asked exactly once, to unregister the trigger of
    that entry. *)
Theorem X2_del_unlinks_one_entry (s : state) (l1 l2 : list entry) (e : entry) :
  is_devs_list s (l1 ++ e :: l2) →
  devs_list_lock s = unlocked →
  e_dev e ∉ devs l1 →
  ∃ s', ledtrig_dev_del (e_dev e) s = Ret tt s' ∧
        is_devs_list s' (l1 ++ l2) ∧
        mem s' !! e_addr e = None ∧
        led_calls s' = led_calls s ++ [UnregisterSimple (e_trig e)] ∧
        devs_list_lock s' = unlocked ∧ printk s' = printk s.
Proof.
  intros Hl Hk Hd. pose proof Hl as (_ & _ & Hnd & Hnull).
  pose proof (ledtrig_dev_del_run (e_dev e) _ (led_calls s) (printk s)
                Hnd Hnull) as H.
  rewrite (mk_state_unlocked s _ Hl Hk) in H.
  destruct (remove_dev_app (e_dev e) l1 e l2 Hd eq_refl) as [Hr Hf].
  unfold released in H. rewrite Hr, Hf in H.
  destruct (remove_dev_wf (e_dev e) _ Hnd Hnull) as [Hnd' Hnull'].
  rewrite Hr in Hnd', Hnull'.
  eexists. split; [exact H|]. split_and!; try done.
  cbn [mk_state mem]. apply lookup_objs_None.
  apply NoDup_addrs_mid in Hnd as (H1 & H2 & _).
  unfold addrs in *. rewrite fmap_app. set_solver.
Qed.

Lemma X2_del_unlinks_one_entry_witness :
  ∃ s', ledtrig_dev_del (MKDEV 8 0) (mk_state unlocked [sdb; sda] [] [])
        = Ret tt s' ∧
        is_devs_list s' [sdb] ∧
        mem s' !! 1%N = None ∧
        led_calls s' = [UnregisterSimple 11%N] ∧
        devs_list_lock s' = unlocked ∧ printk s' = [].
Proof.
  apply (X2_del_unlinks_one_entry (mk_state unlocked [sdb; sda] [] [])
           [sdb] [] sda).
  - apply mk_state_is_devs_list; by_compute.
  - reflexivity.
  - by_compute.
Defined.

(** X3.  Where the list has one entry per device, a second
    [ledtrig_dev_del] for the same device finds nothing to do: deleting
    twice ends in the state in which deleting once ends. *)
Theorem X3_del_twice (s : state) (l : list entry) (d : dev_t) :
  is_devs_list s l →
  devs_list_lock s = unlocked →
  NoDup (devs l) →
  bind (ledtrig_dev_del d) (λ _, ledtrig_dev_del d) s = ledtrig_dev_del d s.
Proof.
  intros Hl Hk Hdevs. pose proof Hl as (_ & _ & Hnd & Hnull).
  pose proof (ledtrig_dev_del_run d l (led_calls s) (printk s) Hnd Hnull) as H.
  rewrite (mk_state_unlocked s l Hl Hk) in H. rewrite bind_eq, H.
  destruct (remove_dev_wf d l Hnd Hnull) as [Hnd' Hnull'].
  apply (ledtrig_dev_del_missing _ (remove_dev d l)).
  - by apply mk_state_is_devs_list.
  - done.
  - by apply remove_dev_not_elem.
Qed.

Lemma X3_del_twice_witness :
  bind (ledtrig_dev_del (MKDEV 8 0)) (λ _, ledtrig_dev_del (MKDEV 8 0))
    (mk_state unlocked [sdb; sda] [] [])
  = ledtrig_dev_del (MKDEV 8 0) (mk_state unlocked [sdb; sda] [] []).
Proof.
  apply (X3_del_twice _ [sdb; sda]).
  - apply mk_state_is_devs_list; by_compute.
  - reflexivity.
  - by_compute.
Defined.

(** ** [ledtrig_dev_add] and the semaphore *)

Lemma ledtrig_dev_add_sleeps a reg d s :
  a ≠ NULL →
  writer (devs_list_lock s) = true ∨ readers (devs_list_lock s) ≠ O →
  ledtrig_dev_add a reg d s = Sleeps.
Proof.
  intros Ha Hk. unfold ledtrig_dev_add.
  rewrite bind_eq, ledtrig_dev_new_run by done.
  rewrite decide_False by done. rewrite bind_eq.
  unfold down_write. cbn [set_mem devs_list_lock].
  destruct (devs_list_lock s) as [w r]. cbn in *.
  destruct w; [done|]. destruct r; [|done]. by destruct Hk.
Qed.

(** X4.  [ledtrig_dev_add] allocates its candidate before it takes the
    semaphore.  While the semaphore is held, by a writer or by readers, it
    therefore sleeps in [down_write] when it got a candidate, and when
    [kzalloc] failed it returns at once, in either case without a change
    to the list or a call into the LED core. *)
Theorem X4_add_allocates_before_locking (s : state) (a reg : ptr) (d : dev_t) :
  writer (devs_list_lock s) = true ∨ readers (devs_list_lock s) ≠ O →
  ledtrig_dev_add NULL reg d s = Ret tt s ∧
  (a ≠ NULL → ledtrig_dev_add a reg d s = Sleeps).
Proof.
  intros Hk. split; [apply ledtrig_dev_add_NULL|].
  intros Ha. by apply ledtrig_dev_add_sleeps.
Qed.

Lemma X4_add_allocates_before_locking_witness :
  ledtrig_dev_add NULL 12%N (MKDEV 8 16) (mk_state (RwSem false 1) [sda] [] [])
  = Ret tt (mk_state (RwSem false 1) [sda] [] []) ∧
  ledtrig_dev_add 2%N 12%N (MKDEV 8 16) (mk_state (RwSem false 1) [sda] [] [])
  = Sleeps.
Proof.
  destruct (X4_add_allocates_before_locking
              (mk_state (RwSem false 1) [sda] [] []) 2%N 12%N (MKDEV 8 16))
    as [H1 H2]; [right; discriminate|].
  split; [exact H1|]. apply H2. discriminate.
Defined.

(** ** Runs *)

(** X5.  From every state that the module can reach, every entry point
    returns: it dereferences no pointer that is not valid, its loops come
    back to the list head, it does not sleep, and it leaves the semaphore
    free; in the state it leaves, memory holds exactly the objects that
    the list links. *)
Theorem X5_calls_return (s : state) (c : call) :
  reachable s →
  allowed c s →
  ∃ s' l', exec c s = Ret tt s' ∧ reachable s' ∧
           devs_list_lock s' = unlocked ∧
           is_devs_list s' l' ∧ dom (mem s') = list_to_set (addrs l').
Proof.
  intros Hr Hc. destruct (reachable_inv s Hr) as [l Hinv].
  destruct (inv_step c s l Hinv Hc) as (s' & Hex & Hinv' & _).
  exists s', (next_list c l). split; [done|].
  split; [by eapply reachable_step|].
  split; [apply Hinv'|]. split; [apply Hinv'|].
  destruct (inv_list _ _ Hinv') as (_ & -> & _). apply dom_objs.
Qed.

Lemma X5_calls_return_witness :
  ∃ s' l', exec (Del (MKDEV 8 0))
             (mk_state unlocked [sda] [RegisterSimple "dev-8:0" 11%N] [])
           = Ret tt s' ∧ reachable s' ∧
           devs_list_lock s' = unlocked ∧
           is_devs_list s' l' ∧ dom (mem s') = list_to_set (addrs l').
Proof. apply (X5_calls_return _ (Del (MKDEV 8 0)) reachable_sda). exact I. Defined.

(** X6.  Unloading the module from any reachable state frees every
    object and leaves no trigger registered with the LED core: each
    trigger that was registered and not yet unregistered is unregistered
    by [ledtrig_dev_exit]. *)
Theorem X6_exit_leaves_nothing (s : state) :
  reachable s →
  ∃ s', ledtrig_dev_exit s = Ret tt s' ∧
        devs_list s' = LIST_HEAD_INIT ∧ mem s' = ∅ ∧
        live_triggers (led_calls s') = ∅.
Proof.
  intros Hr. destruct (reachable_inv s Hr) as [l Hinv].
  destruct (inv_step RemoveAll s l Hinv I) as (s' & Hex & Hinv' & _).
  exists s'. split; [exact Hex|].
  destruct (inv_list _ _ Hinv') as (Hh & Hm & _).
  split_and!; [done..|]. by rewrite (inv_live _ _ Hinv').
Qed.

Lemma X6_exit_leaves_nothing_witness :
  ∃ s', ledtrig_dev_exit
          (mk_state unlocked [sda] [RegisterSimple "dev-8:0" 11%N] [])
        = Ret tt s' ∧
        devs_list s' = LIST_HEAD_INIT ∧ mem s' = ∅ ∧
        live_triggers (led_calls s') = ∅.
Proof. apply (X6_exit_leaves_nothing _ reachable_sda). Defined.

(** X7.  Where the list has one entry per device,
    [ledtrig_dev_remove_all] does what deleting the devices one by one
    does, in list order: the same final state, with the same calls into
    the LED core in the same order. *)
Theorem X7_remove_all_is_del_of_each (s : state) (l : list entry) :
  is_devs_list s l →
  devs_list_lock s = unlocked →
  NoDup (devs l) →
  run (Del <$> devs l) s = ledtrig_dev_remove_all s.
Proof.
  intros Hl Hk Hdevs. pose proof Hl as (_ & _ & Hnd & Hnull).
  rewrite <- (mk_state_unlocked s l Hl Hk).
  rewrite ledtrig_dev_remove_all_run by done.
  generalize (led_calls s) as cs. clear Hl Hk.
  induction l as [|e l IH]; intros cs.
  - cbn. by rewrite app_nil_r.
  - unfold devs in *. rewrite fmap_cons in *.
    apply NoDup_cons in Hdevs as [Hni Hdevs].
    unfold addrs in Hnull. rewrite fmap_cons in Hnull.
    apply not_elem_of_cons in Hnull as [He Hnull].
    cbn [fmap list_fmap run exec]. rewrite bind_eq.
    rewrite ledtrig_dev_del_run;
      [|done|unfold addrs; rewrite fmap_cons; by apply not_elem_of_cons].
    cbn [remove_dev]. rewrite decide_True by done.
    unfold released, find_dev. cbn [find].
    rewrite bool_decide_eq_true_2 by done.
    rewrite IH; [|done|by eapply NoDup_cons_1_2|done].
    unfold released_all. rewrite fmap_cons. by rewrite <- app_assoc.
Qed.

Lemma X7_remove_all_is_del_of_each_witness :
  run [Del (MKDEV 8 16); Del (MKDEV 8 0)] (mk_state unlocked [sdb; sda] [] [])
  = ledtrig_dev_remove_all (mk_state unlocked [sdb; sda] [] []).
Proof.
  apply (X7_remove_all_is_del_of_each _ [sdb; sda]).
  - apply mk_state_is_devs_list; by_compute.
  - reflexivity.
  - by_compute.
Defined.

(** ** Signalling after a change of the list *)

(** X8.  A device that was just added is signalled through its new entry:
    [ledtrig_dev_activity] right after a [ledtrig_dev_add] that linked a
    candidate fires once, on the trigger that the LED core stored for that
    candidate, which is [NULL] when the registration failed. *)
Theorem X8_added_device_is_signalled (s : state) (l : list entry)
    (a reg : ptr) (d : dev_t) :
  is_devs_list s l →
  devs_list_lock s = unlocked →
  a ≠ NULL → mem s !! a = None →
  d ∉ devs l →
  ∃ s', bind (ledtrig_dev_add a reg d) (λ _, ledtrig_dev_activity d) s
        = Ret tt s' ∧
        is_devs_list s' (Entry a (dev_name d) d reg :: l) ∧
        led_calls s' =
          led_calls s ++ [RegisterSimple (dev_name d) reg;
                          BlinkOneshot reg 30 30 0].
Proof.
  intros Hl Hk Hnn Ha Hd. pose proof Hl as (_ & _ & Hnd & Hnull).
  pose proof (is_devs_list_fresh s l a Hl Ha) as Hfr.
  pose proof (ledtrig_dev_add_new a reg d l (led_calls s) (printk s)
                Hnd Hfr Hnn Hd) as Hadd.
  rewrite (mk_state_unlocked s l Hl Hk) in Hadd.
  assert (is_devs_list
            (mk_state unlocked (Entry a (dev_name d) d reg :: l)
               (led_calls s ++ [RegisterSimple (dev_name d) reg]) (printk s))
            (Entry a (dev_name d) d reg :: l)) as Hl'.
  { apply mk_state_is_devs_list; unfold addrs; rewrite fmap_cons.
    - by apply NoDup_cons.
    - apply not_elem_of_cons. by split. }
  eexists. split.
  { rewrite bind_eq, Hadd.
    apply (ledtrig_dev_activity_run d _ _ Hl'). reflexivity. }
  split; [done|].
  unfold fired, find_dev. cbn [find e_dev].
  rewrite bool_decide_eq_true_2 by done.
  cbn. by rewrite <- app_assoc.
Qed.

Lemma X8_added_device_is_signalled_witness :
  ∃ s', bind (ledtrig_dev_add 2%N NULL (MKDEV 8 16))
          (λ _, ledtrig_dev_activity (MKDEV 8 16))
          (mk_state unlocked [sda] [] [])
        = Ret tt s' ∧
        is_devs_list s' (Entry 2%N (dev_name (MKDEV 8 16)) (MKDEV 8 16) NULL
                         :: [sda]) ∧
        led_calls s' =
          [RegisterSimple (dev_name (MKDEV 8 16)) NULL;
           BlinkOneshot NULL 30 30 0].
Proof.
  apply (X8_added_device_is_signalled (mk_state unlocked [sda] [] []) [sda]
           2%N NULL (MKDEV 8 16)).
  - apply mk_state_is_devs_list; by_compute.
  - reflexivity.
  - discriminate.
  - reflexivity.
  - by_compute.
Defined.

(** X9.  Where the list has one entry per device, a device that was just
    deleted is not signalled any more: [ledtrig_dev_activity] right after
    [ledtrig_dev_del] for the same device makes no call into the LED
    core. *)
Theorem X9_deleted_device_is_silent (s : state) (l : list entry) (d : dev_t) :
  is_devs_list s l →
  devs_list_lock s = unlocked →
  NoDup (devs l) →
  bind (ledtrig_dev_del d) (λ _, ledtrig_dev_activity d) s
  = ledtrig_dev_del d s.
Proof.
  intros Hl Hk Hdevs. pose proof Hl as (_ & _ & Hnd & Hnull).
  pose proof (ledtrig_dev_del_run d l (led_calls s) (printk s) Hnd Hnull) as H.
  rewrite (mk_state_unlocked s l Hl Hk) in H. rewrite bind_eq, H.
  destruct (remove_dev_wf d l Hnd Hnull) as [Hnd' Hnull'].
  rewrite (ledtrig_dev_activity_run d _ (remove_dev d l));
    [|by apply mk_state_is_devs_list|done].
  unfold fired.
  pose proof (remove_dev_not_elem d l Hdevs) as Hni.
  apply find_dev_None in Hni. rewrite Hni.
  by rewrite add_led_calls_nil.
Qed.

Lemma X9_deleted_device_is_silent_witness :
  bind (ledtrig_dev_del (MKDEV 8 0)) (λ _, ledtrig_dev_activity (MKDEV 8 0))
    (mk_state unlocked [sdb; sda] [] [])
  = ledtrig_dev_del (MKDEV 8 0) (mk_state unlocked [sdb; sda] [] []).
Proof.
  apply (X9_deleted_device_is_silent _ [sdb; sda]).
  - apply mk_state_is_devs_list; by_compute.
  - reflexivity.
  - by_compute.
Defined.

(** ** Printing device numbers *)

Lemma chars_app a b :
  String.list_ascii_of_string (a +:+ b) =
  String.list_ascii_of_string a ++ String.list_ascii_of_string b.
Proof.
  induction a as [|x a IH]; [done|].
  change (x :: String.list_ascii_of_string (a +:+ b) =
          x :: (String.list_ascii_of_string a ++ String.list_ascii_of_string b)).
  by rewrite IH.
Qed.

Lemma length_chars s :
  length (String.list_ascii_of_string s) = String.length s.
Proof. induction s as [|x s IH]; [done|]. cbn. by rewrite IH. Qed.

Lemma chars_inj s1 s2 :
  String.list_ascii_of_string s1 = String.list_ascii_of_string s2 → s1 = s2.
Proof.
  intros H. rewrite <- (String.string_of_list_ascii_of_string s1).
  rewrite <- (String.string_of_list_ascii_of_string s2). by rewrite H.
Qed.

Lemma pretty_N_char_digit r :
  (r < 10)%N →
  isdigit (pretty_N_char r) ∧ digit_val (pretty_N_char r) = Z.of_N r.
Proof.
  intros Hr.
  assert (r = 0 ∨ r = 1 ∨ r = 2 ∨ r = 3 ∨ r = 4 ∨ r = 5 ∨ r = 6 ∨ r = 7 ∨
          r = 8 ∨ r = 9)%N as H by lia.
  repeat (destruct H as [->|H]; [by split|]). by subst.
Qed.

Lemma decimal_snoc ds c : decimal (ds ++ [c]) = decimal ds * 10 + digit_val c.
Proof. unfold decimal. by rewrite foldl_app. Qed.

Lemma pretty_N_go_digits x : ∀ s,
  ∃ ds, String.list_ascii_of_string (pretty_N_go x s) =
        ds ++ String.list_ascii_of_string s ∧
        Forall isdigit ds ∧ decimal ds = Z.of_N x ∧
        ((0 < x)%N → ds ≠ []) ∧
        ∀ k : nat, (x < 10 ^ N.of_nat k)%N → (length ds ≤ k)%nat.
Proof.
  induction (N.lt_wf_0 x) as [x _ IH]; intros s.
  destruct (decide (x = 0%N)) as [->|Hx].
  - exists []. rewrite pretty_N_go_0. split_and!.
    + done.
    + constructor.
    + done.
    + lia.
    + intros k _. simpl. lia.
  - rewrite pretty_N_go_step by lia.
    destruct (IH (x `div` 10)%N (N.div_lt x 10 ltac:(lia) eq_refl)
                (String (pretty_N_char (x `mod` 10)) s))
      as (ds & Hds & Hdig & Hval & _ & Hlen).
    destruct (pretty_N_char_digit (x `mod` 10)%N) as [Hc Hv].
    { by apply N.mod_lt. }
    exists (ds ++ [pretty_N_char (x `mod` 10)]).
    split_and!.
    + rewrite Hds. cbn. by rewrite <- app_assoc.
    + apply Forall_app. split; [done|]. by constructor.
    + rewrite decimal_snoc, Hval, Hv.
      pose proof (N.div_mod x 10 ltac:(done)). lia.
    + intros _. by destruct ds.
    + intros k Hk. rewrite length_app. cbn.
      destruct k as [|k].
      { cbn in Hk. lia. }
      assert (length ds ≤ k)%nat; [|lia].
      apply Hlen. apply N.Div0.div_lt_upper_bound.
      replace (N.of_nat (S k)) with (N.succ (N.of_nat k)) in Hk by lia.
      rewrite N.pow_succ_r' in Hk. lia.
Qed.

(** The digits that ["%u"] prints for [z]. *)
Lemma fmt_u_digits z :
  0 ≤ z < 2 ^ 32 →
  ∃ ds, String.list_ascii_of_string (fmt_u z) = ds ∧
        Forall isdigit ds ∧ ds ≠ [] ∧ decimal ds = z ∧
        ∀ k : nat, (0 < k)%nat → z < 10 ^ Z.of_nat k → (length ds ≤ k)%nat.
Proof.
  intros Hz. unfold fmt_u, u32. rewrite Z.mod_small by done.
  destruct z as [|p|p]; [| |lia].
  - exists [ "0"%char ]. split_and!.
    + done.
    + by repeat constructor.
    + done.
    + done.
    + intros k Hk _. simpl. lia.
  - change (pretty (Z.pos p)) with (pretty_N_go (N.pos p) "").
    destruct (pretty_N_go_digits (N.pos p) "") as (ds & Hds & Hdig & Hval & Hne & Hlen).
    exists ds. rewrite Hds. cbn [String.list_ascii_of_string].
    rewrite app_nil_r. split_and!.
    + done.
    + done.
    + apply Hne. lia.
    + by rewrite Hval.
    + intros k Hk Hlt. apply Hlen.
      assert (Z.of_N (N.pos p) < Z.of_N (10 ^ N.of_nat k)); [|lia].
      rewrite N2Z.inj_pow. rewrite nat_N_Z. cbn. lia.
Qed.

Lemma MAJOR_MINOR_range d :
  0 ≤ d < 2 ^ 32 →
  0 ≤ MAJOR d < 2 ^ 12 ∧ 0 ≤ MINOR d < 2 ^ 20 ∧ MKDEV (MAJOR d) (MINOR d) = d.
Proof.
  intros Hd. unfold MKDEV, MAJOR, MINOR, MINORMASK, MINORBITS, u32.
  change (Z.shiftl 1 20 - 1) with (Z.ones 20). rewrite Z.land_ones by lia.
  rewrite Z.shiftr_div_pow2 by lia.
  assert (0 ≤ d `div` 2 ^ 20 < 2 ^ 12) as Hma.
  { split; [apply Z.div_pos; lia|]. apply Z.div_lt_upper_bound; lia. }
  assert (0 ≤ d `mod` 2 ^ 20 < 2 ^ 20) as Hmi by (apply Z.mod_pos_bound; lia).
  split; [done|]. split; [done|].
  assert (Z.land (Z.shiftl (d `div` 2 ^ 20) 20) (d `mod` 2 ^ 20) = 0) as Hland.
  { apply Z.bits_inj'. intros n Hn. rewrite Z.land_spec, Z.bits_0.
    destruct (decide (n < 20)).
    - rewrite Z.shiftl_spec_low by lia. done.
    - rewrite (Z.mod_pow2_bits_high d 20 n) by lia. by rewrite andb_false_r. }
  rewrite <- Z.lxor_lor, <- Z.add_nocarry_lxor by done.
  rewrite Z.shiftl_mul_pow2 by lia.
  pose proof (Z.div_mod d (2 ^ 20) ltac:(lia)) as Hdm.
  rewrite Z.mod_small by lia. lia.
Qed.

Lemma substring_all s : ∀ n,
  (String.length s ≤ n)%nat → String.substring 0 n s = s.
Proof.
  induction s as [|x s IH]; intros n Hn; [by destruct n|].
  destruct n as [|n]; [simpl in Hn; lia|].
  cbn. rewrite IH; [done|]. simpl in Hn. lia.
Qed.

(** The text of a name and its parts. *)
Lemma dev_name_chars d :
  0 ≤ d < 2 ^ 32 →
  dev_name d = "dev-" +:+ fmt_u (MAJOR d) +:+ ":" +:+ fmt_u (MINOR d) ∧
  (String.length (dev_name d) ≤ 16)%nat ∧
  ∃ ds1 ds2,
    String.list_ascii_of_string (dev_name d) =
    String.list_ascii_of_string "dev-" ++ ds1 ++ ":"%char :: ds2 ∧
    Forall isdigit ds1 ∧ ds1 ≠ [] ∧ decimal ds1 = MAJOR d ∧
    Forall isdigit ds2 ∧ ds2 ≠ [] ∧ decimal ds2 = MINOR d.
Proof.
  intros Hd. destruct (MAJOR_MINOR_range d Hd) as (Hma & Hmi & _).
  destruct (fmt_u_digits (MAJOR d)) as (ds1 & H1 & Hd1 & Hn1 & Hv1 & Hl1); [lia|].
  destruct (fmt_u_digits (MINOR d)) as (ds2 & H2 & Hd2 & Hn2 & Hv2 & Hl2); [lia|].
  assert (String.list_ascii_of_string
            ("dev-" +:+ fmt_u (MAJOR d) +:+ ":" +:+ fmt_u (MINOR d)) =
          String.list_ascii_of_string "dev-" ++ ds1 ++ ":"%char :: ds2) as Hch.
  { rewrite !chars_app, H1, H2. done. }
  assert (String.length
            ("dev-" +:+ fmt_u (MAJOR d) +:+ ":" +:+ fmt_u (MINOR d)) ≤ 16)%nat
    as Hlen.
  { rewrite <- length_chars, Hch. rewrite !length_app. cbn [length].
    specialize (Hl1 4%nat ltac:(lia) ltac:(lia)).
    specialize (Hl2 7%nat ltac:(lia) ltac:(lia)). cbn. lia. }
  assert (dev_name d =
          "dev-" +:+ fmt_u (MAJOR d) +:+ ":" +:+ fmt_u (MINOR d)) as Hname.
  { unfold dev_name, snprintf, MAX_NAME_LEN. apply substring_all. cbn. lia. }
  rewrite Hname. split; [done|]. split; [done|].
  exists ds1, ds2. by split_and!.
Qed.

Lemma digits_colon_split ds1 : ∀ ds1' r r',
  Forall isdigit ds1 → Forall isdigit ds1' →
  ds1 ++ ":"%char :: r = ds1' ++ ":"%char :: r' →
  ds1 = ds1' ∧ r = r'.
Proof.
  induction ds1 as [|c ds1 IH]; intros [|c' ds1'] r r' H1 H1' Heq.
  - by injection Heq.
  - injection Heq as <- _. by apply Forall_inv in H1'.
  - injection Heq as -> _. by apply Forall_inv in H1.
  - injection Heq as -> Heq.
    apply Forall_cons in H1 as [_ H1]. apply Forall_cons in H1' as [_ H1'].
    destruct (IH _ _ _ H1 H1' Heq) as [-> ->]. done.
Qed.

Lemma dev_name_inj d1 d2 :
  0 ≤ d1 < 2 ^ 32 → 0 ≤ d2 < 2 ^ 32 →
  dev_name d1 = dev_name d2 → d1 = d2.
Proof.
  intros H1 H2 Heq.
  destruct (dev_name_chars d1 H1) as (_ & _ & a1 & b1 & Hc1 & Ha1 & _ & Hva1 &
    Hb1 & _ & Hvb1).
  destruct (dev_name_chars d2 H2) as (_ & _ & a2 & b2 & Hc2 & Ha2 & _ & Hva2 &
    Hb2 & _ & Hvb2).
  rewrite Heq, Hc2 in Hc1. apply app_inv_head in Hc1.
  destruct (digits_colon_split _ _ _ _ Ha2 Ha1 Hc1) as [-> ->].
  destruct (MAJOR_MINOR_range d1 H1) as (_ & _ & <-).
  destruct (MAJOR_MINOR_range d2 H2) as (_ & _ & <-).
  by rewrite <- Hva1, <- Hvb1, Hva2, Hvb2.
Qed.

(** X10.  For a device number of 32 bits, [ledtrig_dev_new] names its
    candidate ["dev-<major>:<minor>"] in full: the name has at most 16
    characters, so the 20 bytes of [name] never cut it.  The candidate
    carries the device, no trigger, and a node that points at itself; no
    other object, nor the list head, the semaphore or the LED core, is
    touched. *)
Theorem X10_new_candidate (s : state) (a : ptr) (d : dev_t) :
  0 ≤ d < 2 ^ 32 →
  a ≠ NULL →
  ∃ s', ledtrig_dev_new a d s = Ret a s' ∧
        mem s' !! a =
          Some (DevData ("dev-" +:+ fmt_u (MAJOR d) +:+ ":" +:+ fmt_u (MINOR d))
                  d NULL (ListHead (Node a) (Node a))) ∧
        (String.length
           ("dev-" +:+ fmt_u (MAJOR d) +:+ ":" +:+ fmt_u (MINOR d)) ≤ 16)%nat ∧
        (∀ b, b ≠ a → mem s' !! b = mem s !! b) ∧
        devs_list s' = devs_list s ∧
        devs_list_lock s' = devs_list_lock s ∧
        led_calls s' = led_calls s.
Proof.
  intros Hd Ha. destruct (dev_name_chars d Hd) as (Hname & Hlen & _).
  eexists. split; [by apply ledtrig_dev_new_run|].
  cbn [set_mem mem devs_list devs_list_lock led_calls].
  split_and!; try done.
  - rewrite lookup_insert_eq. unfold candidate. by rewrite Hname.
  - by rewrite <- Hname.
  - intros b Hb. by rewrite lookup_insert_ne.
Qed.

Lemma X10_new_candidate_witness :
  ∃ s', ledtrig_dev_new 1%N (MKDEV 4095 1048575) init_state = Ret 1%N s' ∧
        mem s' !! 1%N =
          Some (DevData "dev-4095:1048575" (MKDEV 4095 1048575) NULL
                  (ListHead (Node 1%N) (Node 1%N))).
Proof.
  destruct (X10_new_candidate init_state 1%N (MKDEV 4095 1048575))
    as (s' & H1 & H2 & _); [by vm_compute|discriminate|].
  exists s'. split; [exact H1|exact H2].
Defined.

(** X11.  In every reachable state each entry is named after its device,
    and entries for different devices have different names: when the
    devices are numbers of 32 bits, the names under which the triggers of
    the list were registered are pairwise distinct. *)
Theorem X11_names_are_distinct (s : state) :
  reachable s →
  ∃ l, is_devs_list s l ∧
       (∀ e, e ∈ l → e_name e = dev_name (e_dev e)) ∧
       ((∀ e, e ∈ l → 0 ≤ e_dev e < 2 ^ 32) → NoDup (e_name <$> l)).
Proof.
  intros Hr. destruct (reachable_inv s Hr) as [l [Hl _ Hdevs Hnames _ _]].
  exists l. split_and!; [done..|].
  clear Hl. unfold devs in Hdevs.
  induction l as [|e l IH]; intros Hrange; [apply NoDup_nil_2|].
  rewrite fmap_cons in *. apply NoDup_cons in Hdevs as [Hni Hdevs].
  apply NoDup_cons. split.
  - intros (e' & Heq & Hin)%list_elem_of_fmap. apply Hni.
    apply list_elem_of_fmap. exists e'. split; [|done].
    apply dev_name_inj.
    + apply Hrange. left.
    + apply Hrange. by right.
    + rewrite <- (Hnames e) by left. rewrite <- (Hnames e') by by right. done.
  - apply IH; [done| |].
    + intros x Hx. apply Hnames. by right.
    + intros x Hx. apply Hrange. by right.
Qed.

Lemma X11_names_are_distinct_witness :
  ∃ l, is_devs_list
         (mk_state unlocked [sda] [RegisterSimple "dev-8:0" 11%N] []) l ∧
       (∀ e, e ∈ l → e_name e = dev_name (e_dev e)) ∧
       ((∀ e, e ∈ l → 0 ≤ e_dev e < 2 ^ 32) → NoDup (e_name <$> l)).
Proof. apply (X11_names_are_distinct _ reachable_sda). Defined.

(** ** Reading device numbers *)

(** X12.  When the bytes written hold, behind the two numbers, a byte
    that is no digit (the line feed of [echo], or a NUL), then
    [get_dev_from_user] stores [MKDEV(major, minor)] whatever the stack
    held where [temp] is placed: that [temp] is neither initialised nor
    terminated does not show. *)
Theorem X12_delimited_text (buf stack : list ascii) (size : Z) (dev0 : dev_t)
    (s : state) (ws1 ds1 ws2 ds2 rest : list ascii) (c : ascii) :
  0 < size ≤ 20 → size ≤ Z.of_nat (length buf) →
  take (Z.to_nat size) buf = ws1 ++ ds1 ++ ":"%char :: ws2 ++ ds2 ++ c :: rest →
  Forall isspace ws1 → Forall isdigit ds1 → ds1 ≠ [] →
  Forall isspace ws2 → Forall isdigit ds2 → ds2 ≠ [] →
  isdigit c = false →
  get_dev_from_user buf size stack (Some dev0) s
  = Ret (0, Some (MKDEV (u32 (decimal ds1)) (u32 (decimal ds2)))) s.
Proof. apply get_dev_from_user_delimited. Qed.

Lemma X12_delimited_text_witness :
  get_dev_from_user (String.list_ascii_of_string ("8:16" +:+ LF)) 5
    (String.list_ascii_of_string "0123456789") (Some 0) init_state
  = Ret (0, Some (MKDEV 8 16)) init_state.
Proof.
  apply (X12_delimited_text (String.list_ascii_of_string ("8:16" +:+ LF))
           (String.list_ascii_of_string "0123456789") 5 0 init_state
           [] (String.list_ascii_of_string "8") []
           (String.list_ascii_of_string "16") [] (Ascii.ascii_of_nat 10));
    try done; by repeat constructor.
Defined.

(** Without such a byte the result depends on the stack: the three bytes
    ["8:1"] are read as 8:1 or as 8:16. *)
Example undelimited_text_reads_the_stack :
  get_dev_from_user (String.list_ascii_of_string "8:1") 3
    (String.list_ascii_of_string "0000") (Some 0) init_state
  = Ret (0, Some (MKDEV 8 10)) init_state ∧
  get_dev_from_user (String.list_ascii_of_string "8:1") 3
    (String.list_ascii_of_string "000 ") (Some 0) init_state
  = Ret (0, Some (MKDEV 8 1)) init_state.
Proof. split; rewrite get_dev_from_user_run; by vm_compute. Qed.

Lemma dev_line_chars d :
  0 ≤ d < 2 ^ 32 →
  ∃ ds1 ds2,
    String.list_ascii_of_string (dev_line d) =
    ds1 ++ ":"%char :: ds2 ++ [Ascii.ascii_of_nat 10] ∧
    Forall isdigit ds1 ∧ ds1 ≠ [] ∧ decimal ds1 = MAJOR d ∧
    Forall isdigit ds2 ∧ ds2 ≠ [] ∧ decimal ds2 = MINOR d ∧
    (length ds1 ≤ 4)%nat ∧ (length ds2 ≤ 7)%nat.
Proof.
  intros Hd. destruct (MAJOR_MINOR_range d Hd) as (Hma & Hmi & _).
  destruct (fmt_u_digits (MAJOR d)) as (ds1 & H1 & Hd1 & Hn1 & Hv1 & Hl1); [lia|].
  destruct (fmt_u_digits (MINOR d)) as (ds2 & H2 & Hd2 & Hn2 & Hv2 & Hl2); [lia|].
  exists ds1, ds2. unfold dev_line. rewrite !chars_app, H1, H2.
  split_and!; try done.
  - apply Hl1; lia.
  - apply Hl2; lia.
Qed.

(** X13.  What [ledtrig_dev_devices_show] prints for a device can be
    written back: for every device number of 32 bits,
    [get_dev_from_user] reads the line ["<major>:<minor>\n"] of that
    device as that device, whatever the stack holds, so that writing the
    line to the unregister file deletes the device and returns the length
    of the line. *)
Theorem X13_printed_line_reads_back (d dev0 : dev_t) (stack : list ascii)
    (s : state) :
  0 ≤ d < 2 ^ 32 →
  let buf := String.list_ascii_of_string (dev_line d) in
  let size := Z.of_nat (length buf) in
  get_dev_from_user buf size stack (Some dev0) s = Ret (0, Some d) s ∧
  ledtrig_dev_unregister_write buf size stack dev0 s
  = bind (ledtrig_dev_del d) (λ _, ret size) s.
Proof.
  intros Hd buf size.
  destruct (dev_line_chars d Hd) as (ds1 & ds2 & Hbuf & Hd1 & Hn1 & Hv1 &
    Hd2 & Hn2 & Hv2 & Hl1 & Hl2).
  destruct (MAJOR_MINOR_range d Hd) as (Hma & Hmi & Hmk).
  assert (length buf = length ds1 + S (length ds2 + 1))%nat as Hlen.
  { unfold buf. rewrite Hbuf, length_app. cbn [length].
    by rewrite length_app. }
  assert (get_dev_from_user buf size stack (Some dev0) s = Ret (0, Some d) s)
    as Hget.
  { assert (0 < size ≤ 20) as Hsz by (unfold size; lia).
    assert (size ≤ Z.of_nat (length buf)) as Hle by (unfold size; lia).
    assert (take (Z.to_nat size) buf =
            [] ++ ds1 ++ ":"%char :: [] ++ ds2 ++ [Ascii.ascii_of_nat 10])
      as Htake.
    { unfold size. rewrite Nat2Z.id, firstn_all. exact Hbuf. }
    rewrite (get_dev_from_user_delimited buf size stack dev0 s
               [] ds1 [] ds2 (Ascii.ascii_of_nat 10) [] Hsz Hle Htake
               (Forall_nil_2 _) Hd1 Hn1 (Forall_nil_2 _) Hd2 Hn2 eq_refl).
    unfold u32. rewrite Hv1, Hv2. rewrite !Z.mod_small by lia.
    by rewrite Hmk. }
  split; [done|].
  unfold ledtrig_dev_unregister_write. rewrite !bind_eq, Hget. cbn [fst snd].
  rewrite decide_False by lia. done.
Qed.

Lemma X13_printed_line_reads_back_witness :
  get_dev_from_user (String.list_ascii_of_string (dev_line (MKDEV 8 16)))
    (Z.of_nat (length (String.list_ascii_of_string (dev_line (MKDEV 8 16)))))
    [] (Some 0) init_state
  = Ret (0, Some (MKDEV 8 16)) init_state.
Proof.
  apply (X13_printed_line_reads_back (MKDEV 8 16) 0 [] init_state).
  by vm_compute.
Defined.

Lemma MKDEV_bits ma mi :
  0 ≤ ma → 0 ≤ mi < 2 ^ 32 →
  MINOR (MKDEV ma mi) = mi `mod` 2 ^ 20 ∧
  MAJOR (MKDEV ma mi) = Z.lor (ma `mod` 2 ^ 12) (mi `div` 2 ^ 20).
Proof.
  intros Hma Hmi. unfold MAJOR, MINOR, MKDEV, MINORMASK, MINORBITS, u32.
  change (Z.shiftl 1 20 - 1) with (Z.ones 20). split.
  - rewrite Z.land_ones by lia. apply Z.bits_inj'. intros n Hn.
    destruct (decide (n < 20)).
    + rewrite !Z.mod_pow2_bits_low by lia.
      rewrite Z.lor_spec, Z.shiftl_spec_low by lia. done.
    + by rewrite !Z.mod_pow2_bits_high by lia.
  - apply Z.bits_inj'. intros n Hn.
    rewrite Z.shiftr_spec, Z.lor_spec by lia.
    rewrite <- (Z.shiftr_div_pow2 mi 20) by lia.
    rewrite (Z.shiftr_spec mi) by lia.
    destruct (decide (n < 12)).
    + rewrite !Z.mod_pow2_bits_low by lia.
      rewrite Z.lor_spec, Z.shiftl_spec by lia.
      by replace (n + 20 - 20) with n by lia.
    + rewrite !Z.mod_pow2_bits_high by lia.
      rewrite (Z.bits_above_log2 mi (n + 20)); [done|lia|].
      destruct (decide (mi = 0)) as [->|]; [cbn; lia|].
      assert (Z.log2 mi < 32) by (apply Z.log2_lt_pow2; lia). lia.
Qed.

(** X14.  [get_dev_from_user] does not check the two numbers against the
    12 bits of a major and the 20 bits of a minor number: of the device
    it stores, the minor number is [minor] modulo 2^20, and the major
    number is [major] modulo 2^12 with the bits of [minor] from 2^20 up
    or-ed in.  So ["4096:0"] names device 0:0 and ["0:1048576"] device
    1:0. *)
Theorem X14_numbers_are_not_checked (buf stack : list ascii) (size : Z)
    (dev0 : dev_t) (s : state) (ma mi : Z) :
  0 < size ≤ 20 → size ≤ Z.of_nat (length buf) →
  begins_with_major_minor
    (c_str (take (Z.to_nat size) buf ++ drop (Z.to_nat size) stack)) ma mi →
  ∃ d, get_dev_from_user buf size stack (Some dev0) s = Ret (0, Some d) s ∧
       MINOR d = mi `mod` 2 ^ 20 ∧
       MAJOR d = Z.lor (ma `mod` 2 ^ 12) (mi `div` 2 ^ 20).
Proof.
  intros Hsz Hlen Hpat. exists (MKDEV ma mi). split.
  - rewrite get_dev_from_user_run. rewrite decide_True by by left.
    by rewrite (scan_major_minor_accepts _ ma mi Hpat).
  - destruct Hpat as (? & ? & ? & ? & ? & _ & _ & _ & _ & _ & _ & _ & _ &
      -> & ->).
    apply MKDEV_bits; [apply u32_range|apply u32_range].
Qed.

Lemma X14_numbers_are_not_checked_witness :
  ∃ d, get_dev_from_user (String.list_ascii_of_string "4097:1048577") 12 []
         (Some 0) init_state = Ret (0, Some d) init_state ∧
       MINOR d = 1 ∧ MAJOR d = 1.
Proof.
  destruct (X14_numbers_are_not_checked
              (String.list_ascii_of_string "4097:1048577") [] 12 0 init_state
              4097 1048577) as (d & H1 & H2 & H3); [lia|by vm_compute| |].
  - exists [], (String.list_ascii_of_string "4097"), [],
      (String.list_ascii_of_string "1048577"), [].
    split_and!; try done; by repeat constructor.
  - exists d. split; [exact H1|]. split; [exact H2|exact H3].
Defined.

(** ** The write handlers *)

(** X15.  With a text that [get_dev_from_user] accepts, each of the three
    write handlers runs its registry call on the device read and returns
    [size], the number of bytes written, also when the call had nothing
    to do: the registry functions return nothing, so a device that was
    registered already or could not be allocated, or a device that has no
    entry, is not reported to the writer. *)
Theorem X15_write_returns_size (s : state) (l : list entry)
    (buf stack : list ascii) (size : Z) (dev0 : dev_t) (ma mi : Z)
    (a reg : ptr) :
  is_devs_list s l →
  devs_list_lock s = unlocked →
  allowed (Add a reg (MKDEV ma mi)) s →
  0 < size ≤ 20 → size ≤ Z.of_nat (length buf) →
  begins_with_major_minor
    (c_str (take (Z.to_nat size) buf ++ drop (Z.to_nat size) stack)) ma mi →
  ∃ s1 s2 s3,
    ledtrig_dev_register_write a reg buf size stack dev0 s = Ret size s1 ∧
    ledtrig_dev_add a reg (MKDEV ma mi) s = Ret tt s1 ∧
    ledtrig_dev_unregister_write buf size stack dev0 s = Ret size s2 ∧
    ledtrig_dev_del (MKDEV ma mi) s = Ret tt s2 ∧
    ledtrig_dev_trigger_write buf size stack dev0 s = Ret size s3 ∧
    ledtrig_dev_activity (MKDEV ma mi) s = Ret tt s3.
Proof.
  intros Hl Hk Hc Hsz Hlen Hpat.
  assert (get_dev_from_user buf size stack (Some dev0) s
          = Ret (0, Some (MKDEV ma mi)) s) as Hget.
  { rewrite get_dev_from_user_run. rewrite decide_True by by left.
    by rewrite (scan_major_minor_accepts _ ma mi Hpat). }
  destruct (write_accepted buf size stack dev0 s _ ltac:(lia) Hget)
    as (Hreg & Hunreg & Htrig).
  pose proof (exec_run (Add a reg (MKDEV ma mi)) s l Hl Hk Hc) as H1.
  pose proof (exec_run (Del (MKDEV ma mi)) s l Hl Hk I) as H2.
  pose proof (exec_run (Activity (MKDEV ma mi)) s l Hl Hk I) as H3.
  cbn [exec] in H1, H2, H3.
  eexists _, _, _. split_and!.
  - rewrite Hreg, bind_eq, H1. done.
  - exact H1.
  - rewrite Hunreg, bind_eq, H2. done.
  - exact H2.
  - rewrite Htrig, bind_eq, H3. done.
  - exact H3.
Qed.

Lemma X15_write_returns_size_witness :
  ∃ s1 s2 s3,
    ledtrig_dev_register_write 2%N 12%N
      (String.list_ascii_of_string ("8:0" +:+ LF)) 4 [] 0
      (mk_state unlocked [sda] [] []) = Ret 4 s1 ∧
    ledtrig_dev_add 2%N 12%N (MKDEV 8 0) (mk_state unlocked [sda] [] [])
    = Ret tt s1 ∧
    ledtrig_dev_unregister_write
      (String.list_ascii_of_string ("8:0" +:+ LF)) 4 [] 0
      (mk_state unlocked [sda] [] []) = Ret 4 s2 ∧
    ledtrig_dev_del (MKDEV 8 0) (mk_state unlocked [sda] [] []) = Ret tt s2 ∧
    ledtrig_dev_trigger_write
      (String.list_ascii_of_string ("8:0" +:+ LF)) 4 [] 0
      (mk_state unlocked [sda] [] []) = Ret 4 s3 ∧
    ledtrig_dev_activity (MKDEV 8 0) (mk_state unlocked [sda] [] [])
    = Ret tt s3.
Proof.
  apply (X15_write_returns_size (mk_state unlocked [sda] [] []) [sda]
           (String.list_ascii_of_string ("8:0" +:+ LF)) [] 4 0 8 0 2%N 12%N).
  - apply mk_state_is_devs_list; by_compute.
  - reflexivity.
  - split; right; by_compute.
  - lia.
  - by vm_compute.
  - exists [], (String.list_ascii_of_string "8"), [],
      (String.list_ascii_of_string "0"), (String.list_ascii_of_string LF).
    split_and!; try done; by repeat constructor.
Defined.

(** X16.  [get_dev_from_user] does not touch the registry: it leaves the
    list, the memory, the semaphore and the record of LED core calls as
    they are.  It returns 0 or [-EINVAL] and nothing else, and it writes
    through [dev] only when it returns 0; with a [NULL] pointer for [dev]
    it logs a warning and returns [-EINVAL], whatever the text. *)
Theorem X16_get_dev_touches_nothing (buf stack : list ascii) (size : Z)
    (dev0 : dev_t) (s : state) :
  get_dev_from_user buf size stack None s
  = Ret (- EINVAL, None) (add_printk "WARNING" s) ∧
  ∃ r, get_dev_from_user buf size stack (Some dev0) s = Ret r s ∧
       (r = (- EINVAL, Some dev0) ∨ ∃ d, r = (0, Some d)).
Proof.
  split; [done|]. rewrite get_dev_from_user_run.
  eexists. split; [done|].
  destruct (decide _); [|by left].
  destruct (scan_major_minor _) as [|v1 [|v2 [|v3 t]]]; eauto.
Qed.

(** ** Lists with several entries for a device *)

(** X17.  [ledtrig_dev_activity] stops at the first entry for the device:
    on any well-formed list, also one that holds several entries for the
    device, it fires at most once, on the trigger of the first of them in
    list order. *)
Theorem X17_activity_stops_at_first (s : state) (l1 l2 : list entry)
    (e : entry) :
  is_devs_list s (l1 ++ e :: l2) →
  writer (devs_list_lock s) = false →
  e_dev e ∉ devs l1 →
  ledtrig_dev_activity (e_dev e) s
  = Ret tt (add_led_calls [BlinkOneshot (e_trig e) 30 30 0] s).
Proof.
  intros Hl Hk Hd. rewrite (ledtrig_dev_activity_run _ s _ Hl Hk).
  unfold fired.
  by destruct (remove_dev_app (e_dev e) l1 e l2 Hd eq_refl) as [_ ->].
Qed.

Lemma X17_activity_stops_at_first_witness :
  ledtrig_dev_activity (MKDEV 8 0)
    (mk_state unlocked [sdb; sda; Entry 3%N "dev-8:0" (MKDEV 8 0) 13%N] [] [])
  = Ret tt
      (mk_state unlocked [sdb; sda; Entry 3%N "dev-8:0" (MKDEV 8 0) 13%N]
         [BlinkOneshot 11%N 30 30 0] []).
Proof.
  apply (X17_activity_stops_at_first
           (mk_state unlocked
              [sdb; sda; Entry 3%N "dev-8:0" (MKDEV 8 0) 13%N] [] [])
           [sdb] [Entry 3%N "dev-8:0" (MKDEV 8 0) 13%N] sda).
  - apply mk_state_is_devs_list; by_compute.
  - reflexivity.
  - by_compute.
Defined.

(** ** Adding a device twice *)

(** X18.  [ledtrig_dev_add] for a device that has an entry changes one
    thing only: it logs the line ["device <major>:<minor> already
    registered\n"] of its [pr_warn], once.  The candidate it had allocated is freed again,
    the semaphore is released, and the rest of the state is as before. *)
Theorem X18_duplicate_add_warns (s : state) (l : list entry)
    (a reg : ptr) (d : dev_t) :
  is_devs_list s l →
  devs_list_lock s = unlocked →
  a ≠ NULL → mem s !! a = None →
  d ∈ devs l →
  ledtrig_dev_add a reg d s =
  Ret tt (add_printk
            ("device " +:+ fmt_u (MAJOR d) +:+ ":" +:+ fmt_u (MINOR d)
             +:+ " already registered" +:+ LF) s).
Proof.
  intros Hl Hk Hnn Ha Hd. pose proof Hl as (_ & _ & Hnd & Hnull).
  pose proof (is_devs_list_fresh s l a Hl Ha) as Hfr.
  pose proof (ledtrig_dev_add_dup a reg d l (led_calls s) (printk s)
                Hnd Hfr Hnn Hd) as H.
  pose proof (mk_state_unlocked s l Hl Hk) as Hs.
  rewrite Hs in H. rewrite H. f_equal.
  destruct s as [k h m cs msgs]. unfold mk_state, add_printk in *.
  cbn in *. by injection Hs as -> -> ->.
Qed.

Lemma X18_duplicate_add_warns_witness :
  ledtrig_dev_add 2%N 12%N (MKDEV 8 0) (mk_state unlocked [sda] [] []) =
  Ret tt (mk_state unlocked [sda] [] ["device 8:0 already registered" +:+ LF]).
Proof.
  apply (X18_duplicate_add_warns (mk_state unlocked [sda] [] []) [sda]
           2%N 12%N (MKDEV 8 0)).
  - apply mk_state_is_devs_list; by_compute.
  - reflexivity.
  - discriminate.
  - reflexivity.
  - by_compute.
Defined.
